(** * KubeCon schedule pipeline: calendar tokenizer and document formatter

    A shallow embedding of [src/sched/parse_schedule.py] and
    [src/sched/format_schedule.py].

    Python [str] values are sequences of Unicode code points, so a string is a
    [list N]; the literals of the source are written [u "..."].  Functions of
    the Python runtime that the source calls ([str.strip], [str.split],
    [int], [datetime.strptime], ...) are modelled in [Module Py] after the
    behaviour of CPython 3.11. *)

From Stdlib Require Import String Ascii List Bool NArith ZArith Lia.
Import ListNotations.

Set Implicit Arguments.

Open Scope string_scope.
Open Scope list_scope.

(* ================================================================== *)
(** * Python strings, lists and exceptions *)
(* ================================================================== *)

Module Py.

Local Open Scope N_scope.

(** A [str]: its code points, in order. *)
Definition str := list N.

(** The [str] of an ASCII literal of the source. *)
Definition u (s : string) : str := map N_of_ascii (list_ascii_of_string s).

Definition NL : N := 10.

Fixpoint str_eqb (a b : str) : bool :=
  match a, b with
  | [], [] => true
  | x :: a', y :: b' => N.eqb x y && str_eqb a' b'
  | _, _ => false
  end.

(** Truth value of a string, as in [if text:] / [if not text:]. *)
Definition truthy (s : str) : bool :=
  match s with [] => false | _ :: _ => true end.

(** [c.isspace()]: the white space of [str.strip()] and of [\s] in [re]. *)
Definition isspace (c : N) : bool :=
  ((9 <=? c) && (c <=? 13)) || ((28 <=? c) && (c <=? 32))
  || (c =? 133) || (c =? 160) || (c =? 5760)
  || ((8192 <=? c) && (c <=? 8202))
  || (c =? 8232) || (c =? 8233) || (c =? 8239) || (c =? 8287)
  || (c =? 12288).

Fixpoint lstrip (s : str) : str :=
  match s with
  | c :: s' => if isspace c then lstrip s' else s
  | [] => []
  end.

Definition rstrip (s : str) : str := rev (lstrip (rev s)).

(** [s.strip()] *)
Definition strip (s : str) : str := rstrip (lstrip s).

(** [s.startswith(p)] *)
Fixpoint startswith (p s : str) : bool :=
  match p, s with
  | [], _ => true
  | x :: p', y :: s' => N.eqb x y && startswith p' s'
  | _ :: _, [] => false
  end.

(** [sub in s] *)
Fixpoint contains (sub s : str) : bool :=
  startswith sub s ||
  match s with
  | [] => false
  | _ :: s' => contains sub s'
  end.

(** [s.split(sep)] for a non-empty [sep]: [skip] counts the characters of a
    separator just found that are still to be passed over, [cur] is the piece
    being read, reversed. *)
Fixpoint split_aux (sep s : str) (skip : nat) (cur : str) : list str :=
  match s with
  | [] => [rev cur]
  | c :: s' =>
      match skip with
      | S k => split_aux sep s' k cur
      | O =>
          if startswith sep s
          then rev cur :: split_aux sep s' (length sep - 1)%nat []
          else split_aux sep s' 0%nat (c :: cur)
      end
  end.

Definition split (sep s : str) : list str := split_aux sep s 0%nat [].

(** [s.split(sep, 1)]: at most one cut, at the first occurrence of [sep]. *)
Fixpoint split1_aux (sep s : str) (cur : str) : list str :=
  match s with
  | [] => [rev cur]
  | c :: s' =>
      if startswith sep s
      then [rev cur; skipn (length sep) s]
      else split1_aux sep s' (c :: cur)
  end.

Definition split1 (sep s : str) : list str := split1_aux sep s [].

(** [sep.join(l)] *)
Fixpoint join (sep : str) (l : list str) : str :=
  match l with
  | [] => []
  | [x] => x
  | x :: l' => x ++ sep ++ join sep l'
  end.

(** [s.replace(old, new)] for a non-empty [old]: the occurrences are taken
    from the left and do not overlap. *)
Fixpoint replace_aux (old new s : str) (skip : nat) : str :=
  match s with
  | [] => []
  | c :: s' =>
      match skip with
      | S k => replace_aux old new s' k
      | O =>
          if startswith old s
          then new ++ replace_aux old new s' (length old - 1)%nat
          else c :: replace_aux old new s' 0%nat
      end
  end.

Definition replace (old new s : str) : str := replace_aux old new s 0%nat.

(** [c.lower()] on the code points whose lower case has an ASCII character:
    the ASCII capitals, U+0130 and U+212A.  Every other cased letter lowers
    to a single code point outside ASCII; the source only compares the result
    of [lower()] with ASCII prefixes, so those are left as they are. *)
Definition lower_char (c : N) : str :=
  if (65 <=? c) && (c <=? 90) then [c + 32]
  else if c =? 304 then [105; 775]
  else if c =? 8490 then [107]
  else [c].

Definition lower (s : str) : str := flat_map lower_char s.

(** ** Indexing and slicing *)

(** Position of index [i] in a sequence of length [n], for a slice bound:
    negative indices count from the end and everything is clamped. *)
Definition bound (n : nat) (i : Z) : nat :=
  if (i <? 0)%Z then Z.to_nat (Z.max 0 (Z.of_nat n + i))
  else Nat.min n (Z.to_nat i).

(** [l[i:]] *)
Definition slice_from {A} (l : list A) (i : Z) : list A :=
  skipn (bound (length l) i) l.

(** [l[:j]] *)
Definition slice_to {A} (l : list A) (j : Z) : list A :=
  firstn (bound (length l) j) l.

(** [l[i:j]] *)
Definition slice {A} (l : list A) (i j : Z) : list A :=
  firstn (bound (length l) j - bound (length l) i)%nat
         (skipn (bound (length l) i) l).

(** [l[i]].  Python raises [IndexError] out of range; every subscript of the
    source is guarded by a length or membership test, and [d] is what the
    model returns where Python would raise. *)
Definition item {A} (d : A) (l : list A) (i : Z) : A :=
  let k := if (i <? 0)%Z then (Z.of_nat (length l) + i)%Z else i in
  if (k <? 0)%Z then d else nth (Z.to_nat k) l d.

(** ** Exceptions *)

Inductive exn := ValueError | OverflowError | TypeError.

Inductive result (A : Type) :=
| Ok (a : A)
| Raise (e : exn).
Arguments Ok {A} a.
Arguments Raise {A} e.

Definition bind {A B} (r : result A) (k : A -> result B) : result B :=
  match r with
  | Ok a => k a
  | Raise e => Raise e
  end.

(** ** Decimal digits and [int] *)

(** First code point of every block of ten decimal digits (general category
    Nd) of Unicode 14; [\d] and [int] accept them all. *)
Definition digit_zeros : list N :=
  [48; 1632; 1776; 1984; 2406; 2534; 2662; 2790; 2918; 3046; 3174; 3302;
   3430; 3558; 3664; 3792; 3872; 4160; 4240; 6112; 6160; 6470; 6608; 6784;
   6800; 6992; 7088; 7232; 7248; 42528; 43216; 43264; 43472; 43504; 43600;
   44016; 65296; 66720; 68912; 69734; 69872; 69942; 70096; 70384; 70736;
   70864; 71248; 71360; 71472; 71904; 72016; 72784; 73040; 73120; 92768;
   92864; 93008; 120782; 120792; 120802; 120812; 120822; 123200; 123632;
   125264; 130032].

Fixpoint digit_in (zs : list N) (c : N) : option Z :=
  match zs with
  | [] => None
  | z :: zs' =>
      if (z <=? c) && (c <? z + 10) then Some (Z.of_N (c - z))
      else digit_in zs' c
  end.

(** Value of a decimal digit, [None] for any other character. *)
Definition digit_value (c : N) : option Z := digit_in digit_zeros c.

(** Digits of an integer literal after the sign: groups of digits separated
    by single underscores.  [acc] is the value so far, [n] the number of
    digits read, [prev] tells whether the previous character was a digit. *)
Fixpoint int_digits (s : str) (acc : Z) (n : N) (prev : bool)
  : option (Z * N) :=
  match s with
  | [] => if prev then Some (acc, n) else None
  | c :: s' =>
      if c =? 95 then
        if prev then int_digits s' acc n false else None
      else
        match digit_value c with
        | Some d => int_digits s' (10 * acc + d)%Z (n + 1) true
        | None => None
        end
  end.

(** [sys.int_info.default_max_str_digits] *)
Definition max_str_digits : N := 4300.

(** The white space [int()] skips around a literal: that of [str.strip()]
    without the separators U+001C to U+001F, which [int()] takes for a
    character of the literal and rejects. *)
Definition int_space (c : N) : bool :=
  isspace c && negb ((28 <=? c) && (c <=? 31)).

Fixpoint int_lstrip (s : str) : str :=
  match s with
  | c :: s' => if int_space c then int_lstrip s' else s
  | [] => []
  end.

Definition int_strip (s : str) : str := rev (int_lstrip (rev (int_lstrip s))).

(** [int(s)] for a string: [None] stands for [ValueError]. *)
Definition int_of_str (s : str) : option Z :=
  let body sign t :=
    match int_digits t 0%Z 0 false with
    | Some (v, n) => if max_str_digits <? n then None else Some (sign * v)%Z
    | None => None
    end in
  match int_strip s with
  | 43 :: t => body 1%Z t
  | 45 :: t => body (-1)%Z t
  | t => body 1%Z t
  end.

End Py.

(* ================================================================== *)
(** * The calls into [datetime] and [zoneinfo] *)
(* ================================================================== *)

Module PyDatetime.

Import Py.
Local Open Scope Z_scope.

(** A [datetime] without microseconds. *)
Record datetime := {
  year : Z; month : Z; day : Z;
  hour : Z; minute : Z; second : Z
}.

(** ** The proleptic Gregorian calendar of [datetime.py] *)

Definition _is_leap (y : Z) : bool :=
  (y mod 4 =? 0) && (negb (y mod 100 =? 0) || (y mod 400 =? 0)).

Definition _days_before_year (y : Z) : Z :=
  let y1 := y - 1 in y1 * 365 + y1 / 4 - y1 / 100 + y1 / 400.

Definition _DAYS_IN_MONTH : list Z :=
  [-1; 31; 28; 31; 30; 31; 30; 31; 31; 30; 31; 30; 31].

Definition _DAYS_BEFORE_MONTH : list Z :=
  [-1; 0; 31; 59; 90; 120; 151; 181; 212; 243; 273; 304; 334].

Definition _days_in_month (y m : Z) : Z :=
  if (m =? 2) && _is_leap y then 29 else item 0 _DAYS_IN_MONTH m.

Definition _days_before_month (y m : Z) : Z :=
  item 0 _DAYS_BEFORE_MONTH m + (if (2 <? m) && _is_leap y then 1 else 0).

Definition _ymd2ord (y m d : Z) : Z :=
  _days_before_year y + _days_before_month y m + d.

Definition _DI400Y : Z := 146097.
Definition _DI100Y : Z := 36524.
Definition _DI4Y : Z := 1461.
Definition _MAXORDINAL : Z := 3652059.

Definition _ord2ymd (n0 : Z) : Z * Z * Z :=
  let n := n0 - 1 in
  let n400 := n / _DI400Y in let n := n mod _DI400Y in
  let y := n400 * 400 + 1 in
  let n100 := n / _DI100Y in let n := n mod _DI100Y in
  let n4 := n / _DI4Y in let n := n mod _DI4Y in
  let n1 := n / 365 in let n := n mod 365 in
  let y := y + n100 * 100 + n4 * 4 + n1 in
  if (n1 =? 4) || (n100 =? 4) then (y - 1, 12, 31)
  else
    let leapyear := (n1 =? 3) && (negb (n4 =? 24) || (n100 =? 3)) in
    let m := Z.shiftr (n + 50) 5 in
    let preceding :=
      item 0 _DAYS_BEFORE_MONTH m + (if (2 <? m) && leapyear then 1 else 0) in
    if n <? preceding then
      let m := m - 1 in
      let preceding :=
        preceding
        - (item 0 _DAYS_IN_MONTH m + (if (m =? 2) && leapyear then 1 else 0)) in
      (y, m, n - preceding + 1)
    else (y, m, n - preceding + 1).

(** ** [datetime.strptime(s, "%Y%m%dT%H%M%SZ")]

    [_strptime] turns the format into a regular expression, compiled with
    [IGNORECASE], and matches it at the start of the string. *)

Inductive cclass :=
| Digit                 (* \d *)
| Range (lo hi : N)     (* [lo-hi] *)
| Char (c : N)          (* a character that has no other case *)
| Letter (c : N).       (* a capital letter, in either case *)

Definition cc_match (k : cclass) (c : N) : bool :=
  match k with
  | Digit => match digit_value c with Some _ => true | None => false end
  | Range lo hi => (lo <=? c)%N && (c <=? hi)%N
  | Char x => (c =? x)%N
  | Letter x => (c =? x)%N || (c =? x + 32)%N
  end.

(** One alternative: a sequence of character classes.  Gives the text matched
    and the rest. *)
Fixpoint match_seq (ks : list cclass) (s : str) : option (str * str) :=
  match ks, s with
  | [], _ => Some ([], s)
  | k :: ks', c :: s' =>
      if cc_match k c then
        match match_seq ks' s' with
        | Some (m, r) => Some (c :: m, r)
        | None => None
        end
      else None
  | _ :: _, [] => None
  end.

(** A sequence of groups, each a list of alternatives tried in order, with
    backtracking into the earlier groups: the first match, as [re.match]
    finds it. *)
Fixpoint match_groups (gs : list (list (list cclass))) (s : str)
  : option (list str * str) :=
  match gs with
  | [] => Some ([], s)
  | g :: gs' =>
      (fix try (alts : list (list cclass)) : option (list str * str) :=
         match alts with
         | [] => None
         | a :: alts' =>
             match match_seq a s with
             | Some (m, rest) =>
                 match match_groups gs' rest with
                 | Some (ms, r) => Some (m :: ms, r)
                 | None => try alts'
                 end
             | None => try alts'
             end
         end) g
  end.

Definition c0 : N := 48.
Definition c1 : N := 49.
Definition c2 : N := 50.
Definition c3 : N := 51.
Definition c5 : N := 53.
Definition c6 : N := 54.
Definition c9 : N := 57.

(** The regular expression of ["%Y%m%dT%H%M%SZ"]. *)
Definition ICS_FORMAT : list (list (list cclass)) :=
  [ (* %Y *) [[Digit; Digit; Digit; Digit]];
    (* %m *) [[Char c1; Range c0 c2]; [Char c0; Range c1 c9]; [Range c1 c9]];
    (* %d *) [[Char c3; Range c0 c1]; [Range c1 c2; Digit];
              [Char c0; Range c1 c9]; [Range c1 c9];
              [Char 32%N; Range c1 c9]];
    (* T  *) [[Letter 84%N]];
    (* %H *) [[Char c2; Range c0 c3]; [Range c0 c1; Digit]; [Digit]];
    (* %M *) [[Range c0 c5; Digit]; [Digit]];
    (* %S *) [[Char c6; Range c0 c1]; [Range c0 c5; Digit]; [Digit]];
    (* Z  *) [[Letter 90%N]] ].

Definition int_or0 (s : str) : Z :=
  match int_of_str s with Some v => v | None => 0 end.

(** [datetime.strptime(s, "%Y%m%dT%H%M%SZ")].  Every failure of [strptime]
    is a [ValueError]: no match, text left over, year 0, a day the month
    does not have, a second above 59. *)
Definition strptime (s : str) : result datetime :=
  match match_groups ICS_FORMAT s with
  | None => Raise ValueError
  | Some (ms, rest) =>
      if truthy rest then Raise ValueError
      else
        match ms with
        | [y; m; d; _; h; mi; se; _] =>
            let y := int_or0 y in let m := int_or0 m in
            let d := int_or0 d in let se := int_or0 se in
            if (y <? 1) || (_days_in_month y m <? d) || (59 <? se)
            then Raise ValueError
            else Ok {| year := y; month := m; day := d;
                       hour := int_or0 h; minute := int_or0 mi;
                       second := se |}
        | _ => Raise ValueError
        end
  end.

(** ** [ZoneInfo("America/New_York")] *)

(** Seconds from 1970-01-01T00:00:00 to the fields of [dt]. *)
Definition timestamp (dt : datetime) : Z :=
  (_ymd2ord (year dt) (month dt) (day dt) - 719163) * 86400
  + hour dt * 3600 + minute dt * 60 + second dt.

(** Offset before the first transition: local mean time. *)
Definition NEW_YORK_LMT : Z := -17762.

(** The transitions of the zone up to 2006, as the zone file lists them:
    the UTC second at which an offset begins, and that offset in seconds. *)
Definition NEW_YORK_TRANSITIONS : list (Z * Z) :=
  [
   (-2717650800, -18000); (-1633280400, -14400); (-1615140000, -18000);
   (-1601830800, -14400); (-1583690400, -18000); (-1570381200, -14400);
   (-1551636000, -18000); (-1536512400, -14400); (-1523210400, -18000);
   (-1504458000, -14400); (-1491760800, -18000); (-1473008400, -14400);
   (-1459706400, -18000); (-1441558800, -14400); (-1428256800, -18000);
   (-1410109200, -14400); (-1396807200, -18000); (-1378659600, -14400);
   (-1365357600, -18000); (-1347210000, -14400); (-1333908000, -18000);
   (-1315155600, -14400); (-1301853600, -18000); (-1283706000, -14400);
   (-1270404000, -18000); (-1252256400, -14400); (-1238954400, -18000);
   (-1220806800, -14400); (-1207504800, -18000); (-1189357200, -14400);
   (-1176055200, -18000); (-1157302800, -14400); (-1144605600, -18000);
   (-1125853200, -14400); (-1112551200, -18000); (-1094403600, -14400);
   (-1081101600, -18000); (-1062954000, -14400); (-1049652000, -18000);
   (-1031504400, -14400); (-1018202400, -18000); (-1000054800, -14400);
   (-986752800, -18000); (-968000400, -14400); (-955303200, -18000);
   (-936550800, -14400); (-923248800, -18000); (-905101200, -14400);
   (-891799200, -18000); (-880218000, -14400); (-769395600, -14400);
   (-765396000, -18000); (-747248400, -14400); (-733946400, -18000);
   (-715798800, -14400); (-702496800, -18000); (-684349200, -14400);
   (-671047200, -18000); (-652899600, -14400); (-639597600, -18000);
   (-620845200, -14400); (-608148000, -18000); (-589395600, -14400);
   (-576093600, -18000); (-557946000, -14400); (-544644000, -18000);
   (-526496400, -14400); (-513194400, -18000); (-495046800, -14400);
   (-481744800, -18000); (-463597200, -14400); (-447271200, -18000);
   (-431542800, -14400); (-415821600, -18000); (-400093200, -14400);
   (-384372000, -18000); (-368643600, -14400); (-352922400, -18000);
   (-337194000, -14400); (-321472800, -18000); (-305744400, -14400);
   (-289418400, -18000); (-273690000, -14400); (-257968800, -18000);
   (-242240400, -14400); (-226519200, -18000); (-210790800, -14400);
   (-195069600, -18000); (-179341200, -14400); (-163620000, -18000);
   (-147891600, -14400); (-131565600, -18000); (-116442000, -14400);
   (-100116000, -18000); (-84387600, -14400); (-68666400, -18000);
   (-52938000, -14400); (-37216800, -18000); (-21488400, -14400);
   (-5767200, -18000); (9961200, -14400); (25682400, -18000);
   (41410800, -14400); (57736800, -18000); (73465200, -14400);
   (89186400, -18000); (104914800, -14400); (120636000, -18000);
   (126687600, -14400); (152085600, -18000); (162370800, -14400);
   (183535200, -18000); (199263600, -14400); (215589600, -18000);
   (230713200, -14400); (247039200, -18000); (262767600, -14400);
   (278488800, -18000); (294217200, -14400); (309938400, -18000);
   (325666800, -14400); (341388000, -18000); (357116400, -14400);
   (372837600, -18000); (388566000, -14400); (404892000, -18000);
   (420015600, -14400); (436341600, -18000); (452070000, -14400);
   (467791200, -18000); (483519600, -14400); (499240800, -18000);
   (514969200, -14400); (530690400, -18000); (544604400, -14400);
   (562140000, -18000); (576054000, -14400); (594194400, -18000);
   (607503600, -14400); (625644000, -18000); (638953200, -14400);
   (657093600, -18000); (671007600, -14400); (688543200, -18000);
   (702457200, -14400); (719992800, -18000); (733906800, -14400);
   (752047200, -18000); (765356400, -14400); (783496800, -18000);
   (796806000, -14400); (814946400, -18000); (828860400, -14400);
   (846396000, -18000); (860310000, -14400); (877845600, -18000);
   (891759600, -14400); (909295200, -18000); (923209200, -14400);
   (941349600, -18000); (954658800, -14400); (972799200, -18000);
   (986108400, -14400); (1004248800, -18000); (1018162800, -14400);
   (1035698400, -18000); (1049612400, -14400); (1067148000, -18000);
   (1081062000, -14400); (1099202400, -18000); (1112511600, -14400);
   (1130652000, -18000); (1143961200, -14400); (1162101600, -18000)
  ].

Fixpoint offset_at (tr : list (Z * Z)) (ts cur : Z) : Z :=
  match tr with
  | [] => cur
  | (t, o) :: tr' => if t <=? ts then offset_at tr' ts o else cur
  end.

(** Ordinal of the first Sunday on or after the first day of month [m]. *)
Definition first_sunday (y m : Z) : Z :=
  let o := _ymd2ord y m 1 in o + (7 - o mod 7) mod 7.

(** The rule in force since 2007 (EST5EDT,M3.2.0,M11.1.0): daylight time
    from the second Sunday of March, 07:00 UTC, to the first Sunday of
    November, 06:00 UTC. *)
Definition rule_offset (ts y : Z) : Z :=
  let start := (first_sunday y 3 + 7 - 719163) * 86400 + 7 * 3600 in
  let stop := (first_sunday y 11 - 719163) * 86400 + 6 * 3600 in
  if (start <=? ts) && (ts <? stop) then -14400 else -18000.

(** Offset of New York from UTC at the UTC instant [ts] of year [y]. *)
Definition new_york_utcoffset (ts y : Z) : Z :=
  if ts <? 1167609600 then offset_at NEW_YORK_TRANSITIONS ts NEW_YORK_LMT
  else rule_offset ts y.

(** [dt.replace(tzinfo=ZoneInfo("UTC")).astimezone(ZoneInfo("America/New_York"))]:
    the local fields and the offset.  Adding the offset raises
    [OverflowError] when the local date leaves the years 1 to 9999. *)
Definition astimezone_new_york (dt : datetime) : result (datetime * Z) :=
  let ts := timestamp dt in
  let off := new_york_utcoffset ts (year dt) in
  let loc := ts + off + 719162 * 86400 in
  let ord := loc / 86400 + 1 in
  let sec := loc mod 86400 in
  if (ord <? 1) || (_MAXORDINAL <? ord) then Raise OverflowError
  else
    let '(y, m, d) := _ord2ymd ord in
    Ok ({| year := y; month := m; day := d;
           hour := sec / 3600; minute := (sec mod 3600) / 60;
           second := sec mod 60 |}, off).

(** ** [isoformat] *)

(** ["%0wd" % n] for [0 <= n < 10^w]. *)
Fixpoint pad (w : nat) (n : Z) : str :=
  match w with
  | O => []
  | S w' => pad w' (n / 10) ++ [Z.to_N (48 + n mod 10)]
  end.

Definition _format_offset (off : Z) : str :=
  let a := Z.abs off in
  [if off <? 0 then 45%N else 43%N]
  ++ pad 2 (a / 3600) ++ [58%N] ++ pad 2 ((a mod 3600) / 60)
  ++ (if a mod 60 =? 0 then [] else 58%N :: pad 2 (a mod 60)).

Definition isoformat (dt : datetime) (off : Z) : str :=
  pad 4 (year dt) ++ [45%N] ++ pad 2 (month dt) ++ [45%N] ++ pad 2 (day dt)
  ++ [84%N] ++ pad 2 (hour dt) ++ [58%N] ++ pad 2 (minute dt) ++ [58%N]
  ++ pad 2 (second dt) ++ _format_offset off.

End PyDatetime.

(* ================================================================== *)
(** * parse_schedule.py *)
(* ================================================================== *)

Module ParseSchedule.

Import Py PyDatetime.

(** [parse_ics_datetime]: the three calls of the [try] block may raise; only
    [ValueError] is caught. *)
Definition parse_ics_datetime (dt_string : str) : result str :=
  if negb (truthy dt_string) then Ok []
  else
    match
      bind (strptime dt_string) (fun dt_utc =>
      bind (astimezone_new_york dt_utc) (fun '(dt_eastern, off) =>
      Ok (isoformat dt_eastern off)))
    with
    | Raise ValueError => Ok dt_string
    | r => r
    end.

(** [unescape_ics_text].  A string literal of Rocq has no escapes: ["\n"]
    below is a backslash followed by [n], the Python ["\\n"]. *)
Definition unescape_ics_text (text : str) : str :=
  if negb (truthy text) then []
  else
    let text := replace (u "\,") (u ",") text in
    let text := replace (u "\;") (u ";") text in
    let text := replace (u "\n") [NL] text in
    let text := replace (u "\\") (u "\") text in
    strip text.

(** The dictionary built for an event: its ten keys are always present. *)
Record Event := {
  uid : str;
  dtstamp : str;
  dtstart : str;
  dtend : str;
  summary : str;
  description : str;
  categories : list str;
  location : str;
  sequence : Z;
  url : str
}.

(** The keys [current_field] ranges over. *)
Inductive field :=
| k_uid | k_dtstamp | k_dtstart | k_dtend | k_summary | k_description
| k_categories | k_location | k_sequence | k_url.

Definition new_event : Event :=
  {| uid := []; dtstamp := []; dtstart := []; dtend := []; summary := [];
     description := []; categories := []; location := []; sequence := 0%Z;
     url := [] |}.

Definition set_uid (v : str) (e : Event) : Event :=
  {| uid := v; dtstamp := dtstamp e; dtstart := dtstart e; dtend := dtend e;
     summary := summary e; description := description e;
     categories := categories e; location := location e;
     sequence := sequence e; url := url e |}.
Definition set_dtstamp (v : str) (e : Event) : Event :=
  {| uid := uid e; dtstamp := v; dtstart := dtstart e; dtend := dtend e;
     summary := summary e; description := description e;
     categories := categories e; location := location e;
     sequence := sequence e; url := url e |}.
Definition set_dtstart (v : str) (e : Event) : Event :=
  {| uid := uid e; dtstamp := dtstamp e; dtstart := v; dtend := dtend e;
     summary := summary e; description := description e;
     categories := categories e; location := location e;
     sequence := sequence e; url := url e |}.
Definition set_dtend (v : str) (e : Event) : Event :=
  {| uid := uid e; dtstamp := dtstamp e; dtstart := dtstart e; dtend := v;
     summary := summary e; description := description e;
     categories := categories e; location := location e;
     sequence := sequence e; url := url e |}.
Definition set_summary (v : str) (e : Event) : Event :=
  {| uid := uid e; dtstamp := dtstamp e; dtstart := dtstart e;
     dtend := dtend e; summary := v; description := description e;
     categories := categories e; location := location e;
     sequence := sequence e; url := url e |}.
Definition set_description (v : str) (e : Event) : Event :=
  {| uid := uid e; dtstamp := dtstamp e; dtstart := dtstart e;
     dtend := dtend e; summary := summary e; description := v;
     categories := categories e; location := location e;
     sequence := sequence e; url := url e |}.
Definition set_categories (v : list str) (e : Event) : Event :=
  {| uid := uid e; dtstamp := dtstamp e; dtstart := dtstart e;
     dtend := dtend e; summary := summary e; description := description e;
     categories := v; location := location e;
     sequence := sequence e; url := url e |}.
Definition set_location (v : str) (e : Event) : Event :=
  {| uid := uid e; dtstamp := dtstamp e; dtstart := dtstart e;
     dtend := dtend e; summary := summary e; description := description e;
     categories := categories e; location := v;
     sequence := sequence e; url := url e |}.
Definition set_sequence (v : Z) (e : Event) : Event :=
  {| uid := uid e; dtstamp := dtstamp e; dtstart := dtstart e;
     dtend := dtend e; summary := summary e; description := description e;
     categories := categories e; location := location e;
     sequence := v; url := url e |}.
Definition set_url (v : str) (e : Event) : Event :=
  {| uid := uid e; dtstamp := dtstamp e; dtstart := dtstart e;
     dtend := dtend e; summary := summary e; description := description e;
     categories := categories e; location := location e;
     sequence := sequence e; url := v |}.

(** [current_event[current_field] += rest]: concatenation on a string,
    [list += str] appends the characters one by one, [int += str] raises. *)
Definition append_field (k : field) (rest : str) (e : Event) : result Event :=
  match k with
  | k_uid => Ok (set_uid (uid e ++ rest) e)
  | k_dtstamp => Ok (set_dtstamp (dtstamp e ++ rest) e)
  | k_dtstart => Ok (set_dtstart (dtstart e ++ rest) e)
  | k_dtend => Ok (set_dtend (dtend e ++ rest) e)
  | k_summary => Ok (set_summary (summary e ++ rest) e)
  | k_description => Ok (set_description (description e ++ rest) e)
  | k_categories =>
      Ok (set_categories (categories e ++ map (fun c => [c]) rest) e)
  | k_location => Ok (set_location (location e ++ rest) e)
  | k_sequence => Raise TypeError
  | k_url => Ok (set_url (url e ++ rest) e)
  end.

(** [calendar_data["calendar"]["metadata"]]: a key is absent until a line
    sets it. *)
Record Metadata := {
  md_version : option str;
  md_name : option str;
  md_description : option str;
  md_method : option str;
  md_calscale : option str;
  md_prodid : option str;
  md_timezone : option str
}.

Definition no_metadata : Metadata :=
  {| md_version := None; md_name := None; md_description := None;
     md_method := None; md_calscale := None; md_prodid := None;
     md_timezone := None |}.

(** [calendar_data["calendar"]] *)
Record Calendar := {
  metadata : Metadata;
  events : list Event
}.

(** The variables of the loop of [parse_ics_to_json]. *)
Record state := {
  calendar : Calendar;
  current_event : option Event;
  current_field : option field
}.

Definition initial : state :=
  {| calendar := {| metadata := no_metadata; events := [] |};
     current_event := None; current_field := None |}.

Definition with_metadata (f : Metadata -> Metadata) (st : state) : state :=
  {| calendar := {| metadata := f (metadata (calendar st));
                    events := events (calendar st) |};
     current_event := current_event st;
     current_field := current_field st |}.

Definition with_event (e : Event) (k : field) (st : state) : state :=
  {| calendar := calendar st;
     current_event := Some e; current_field := Some k |}.

(** [line.split(":", 1)[1]] *)
Definition after_colon (line : str) : str :=
  item [] (split1 (u ":") line) 1.

(** The [FIELD:value] branch, on [field, value = line.split(":", 1)]. *)
Definition parse_field (e : Event) (line : str) (st : state) : result state :=
  let fv := split1 (u ":") line in
  let field := item [] fv 0 in
  let value := item [] fv 1 in
  if str_eqb field (u "UID") then Ok (with_event (set_uid value e) k_uid st)
  else if str_eqb field (u "DTSTAMP") then
    bind (parse_ics_datetime value) (fun v =>
    Ok (with_event (set_dtstamp v e) k_dtstamp st))
  else if str_eqb field (u "DTSTART") then
    bind (parse_ics_datetime value) (fun v =>
    Ok (with_event (set_dtstart v e) k_dtstart st))
  else if str_eqb field (u "DTEND") then
    bind (parse_ics_datetime value) (fun v =>
    Ok (with_event (set_dtend v e) k_dtend st))
  else if str_eqb field (u "SUMMARY") then
    Ok (with_event (set_summary value e) k_summary st)
  else if str_eqb field (u "DESCRIPTION") then
    Ok (with_event (set_description value e) k_description st)
  else if str_eqb field (u "CATEGORIES") then
    Ok (with_event (set_categories (map strip (split (u ",") value)) e)
                   k_categories st)
  else if str_eqb field (u "LOCATION") then
    Ok (with_event (set_location value e) k_location st)
  else if str_eqb field (u "SEQUENCE") then
    match int_of_str value with
    | Some n => Ok (with_event (set_sequence n e) k_sequence st)
    | None => Raise ValueError
    end
  else if str_eqb field (u "URL") then
    Ok (with_event (set_url value e) k_url st)
  else Ok st.

(** The clean-up of the [END:VEVENT] branch. *)
Definition finish_event (e : Event) : Event :=
  let e := set_description (unescape_ics_text (description e)) e in
  let e := set_summary (unescape_ics_text (summary e)) e in
  set_location (unescape_ics_text (location e)) e.

(** One turn of the loop [for line in lines].  The two tests
    [line == "END:VEVENT" and current_event] and [elif current_event] are
    read off one match on [current_event]: without an event both fall
    through and the line is passed over. *)
Definition process_line (st : state) (raw : str) : result state :=
  let line := strip raw in
  if negb (truthy line) then Ok st
  else if startswith (u "VERSION:") line then
    Ok (with_metadata (fun m =>
      {| md_version := Some (after_colon line); md_name := md_name m;
         md_description := md_description m; md_method := md_method m;
         md_calscale := md_calscale m; md_prodid := md_prodid m;
         md_timezone := md_timezone m |}) st)
  else if startswith (u "X-WR-CALNAME:") line then
    Ok (with_metadata (fun m =>
      {| md_version := md_version m; md_name := Some (after_colon line);
         md_description := md_description m; md_method := md_method m;
         md_calscale := md_calscale m; md_prodid := md_prodid m;
         md_timezone := md_timezone m |}) st)
  else if startswith (u "X-WR-CALDESC:") line then
    Ok (with_metadata (fun m =>
      {| md_version := md_version m; md_name := md_name m;
         md_description := Some (after_colon line); md_method := md_method m;
         md_calscale := md_calscale m; md_prodid := md_prodid m;
         md_timezone := md_timezone m |}) st)
  else if startswith (u "METHOD:") line then
    Ok (with_metadata (fun m =>
      {| md_version := md_version m; md_name := md_name m;
         md_description := md_description m;
         md_method := Some (after_colon line);
         md_calscale := md_calscale m; md_prodid := md_prodid m;
         md_timezone := md_timezone m |}) st)
  else if startswith (u "CALSCALE:") line then
    Ok (with_metadata (fun m =>
      {| md_version := md_version m; md_name := md_name m;
         md_description := md_description m; md_method := md_method m;
         md_calscale := Some (after_colon line); md_prodid := md_prodid m;
         md_timezone := md_timezone m |}) st)
  else if startswith (u "PRODID:") line then
    Ok (with_metadata (fun m =>
      {| md_version := md_version m; md_name := md_name m;
         md_description := md_description m; md_method := md_method m;
         md_calscale := md_calscale m; md_prodid := Some (after_colon line);
         md_timezone := md_timezone m |}) st)
  else if startswith (u "X-WR-TIMEZONE:") line then
    Ok (with_metadata (fun m =>
      {| md_version := md_version m; md_name := md_name m;
         md_description := md_description m; md_method := md_method m;
         md_calscale := md_calscale m; md_prodid := md_prodid m;
         md_timezone := Some (after_colon line) |}) st)
  else if str_eqb line (u "BEGIN:VEVENT") then
    Ok {| calendar := calendar st;
          current_event := Some new_event; current_field := None |}
  else
    match current_event st with
    | Some e =>
        if str_eqb line (u "END:VEVENT") then
          Ok {| calendar := {| metadata := metadata (calendar st);
                               events := events (calendar st)
                                         ++ [finish_event e] |};
                current_event := None; current_field := None |}
        else
          match startswith (u " ") line, current_field st with
          | true, Some k =>
              bind (append_field k (slice_from line 1) e) (fun e' =>
              Ok {| calendar := calendar st;
                    current_event := Some e';
                    current_field := current_field st |})
          | _, _ =>
              if contains (u ":") line then parse_field e line st
              else Ok st
          end
    | None => Ok st
    end.

(** The loop: an exception ends it. *)
Fixpoint run (st : state) (lines : list str) : result state :=
  match lines with
  | [] => Ok st
  | l :: lines' => bind (process_line st l) (fun st' => run st' lines')
  end.

Definition parse_ics_to_json (ics_content : str) : result Calendar :=
  bind (run initial (split [NL] ics_content)) (fun st => Ok (calendar st)).

End ParseSchedule.

(* ================================================================== *)
(** * format_schedule.py *)
(* ================================================================== *)

Module FormatSchedule.

Import Py.

Definition COMPANY_SUFFIXES : list str :=
  [u "Inc."; u "Inc"; u "LLC"; u "LLC."; u "Ltd"; u "Ltd."; u "Corp";
   u "Corp."; u "Co."; u "Co"; u "LP"; u "LP."; u "LLP"; u "LLP.";
   u "PLC"; u "PLC."].

Definition EXCLUDED_CATEGORIES : list str :=
  [u "REGISTRATION"; u "CNCF-HOSTED CO-LOCATED EVENTS";
   u "SPONSOR-HOSTED CO-LOCATED EVENT"; u "PROJECT OPPORTUNITIES"].

(** [x in S] for a frozenset of strings. *)
Definition member (x : str) (S : list str) : bool := existsb (str_eqb x) S.

(** Truth value of an optional string: [None] and [""] are false. *)
Definition opt_truthy (o : option str) : bool :=
  match o with Some s => truthy s | None => false end.

(** [Location]; [to_dict] keeps the fields that are not [None], which is
    what the record of options holds. *)
Record Location := {
  building : option str;
  level : option str;
  room : option str
}.

Definition location_to_text (loc : Location) : str :=
  let parts :=
    (match building loc with
     | Some b => if truthy b then [u "Building " ++ b] else []
     | None => [] end)
    ++ (match level loc with
        | Some l => if truthy l then [u "Level " ++ l] else []
        | None => [] end)
    ++ (match room loc with
        | Some r => if truthy r then [r] else []
        | None => [] end) in
  join (u " | ") parts.

Record Speaker := {
  name : str;
  title : option str;
  company : option str
}.

Definition speaker_to_text (s : Speaker) : str :=
  let parts :=
    [name s]
    ++ (match title s with
        | Some t => if truthy t then [t] else []
        | None => [] end)
    ++ (match company s with
        | Some c => if truthy c then [u "from " ++ c] else []
        | None => [] end) in
  join (u " ") parts.

(** ** parse_location *)

(** Does [,\s*Atlanta] match at the start of [s]? *)
Definition city_at (s : str) : bool :=
  match s with
  | 44%N :: r => startswith (u "Atlanta") (lstrip r)
  | _ => false
  end.

(** [re.split(r",\s*Atlanta", s)[0]]: the text before the leftmost match,
    all of [s] when there is none. *)
Fixpoint before_city (s : str) : str :=
  match s with
  | [] => []
  | c :: s' => if city_at s then [] else c :: before_city s'
  end.

(** The body of [for part in parts]. *)
Definition assign_part (loc : Location) (part : str) : Location :=
  if startswith (u "building ") (lower part) then
    {| building := Some (strip (slice_from part 9));
       level := level loc; room := room loc |}
  else if startswith (u "level ") (lower part) then
    {| building := building loc;
       level := Some (strip (slice_from part 6)); room := room loc |}
  else if truthy part then
    {| building := building loc; level := level loc; room := Some part |}
  else loc.

Definition no_location : Location :=
  {| building := None; level := None; room := None |}.

Definition parse_location (location : str) : option Location :=
  if negb (truthy location) then None
  else
    let location := strip (before_city location) in
    let parts := map strip (split (u "|") location) in
    let loc := fold_left assign_part parts no_location in
    if opt_truthy (building loc) || opt_truthy (level loc)
       || opt_truthy (room loc)
    then Some loc else None.

(** ** Speakers *)

Definition normalize_company_name (parts : list str) (start_idx : Z) : str :=
  if (Z.of_nat (length parts) <=? start_idx)%Z then []
  else
    let company_parts := slice_from parts start_idx in
    if (2 <=? length company_parts)%nat
       && member (item [] company_parts (-1)) COMPANY_SUFFIXES
    then item [] company_parts (-2) ++ u ", " ++ item [] company_parts (-1)
    else
      match company_parts with
      | [] => []
      | _ :: _ => item [] company_parts (-1)
      end.

Definition parse_speaker_entry (entry : str) : option Speaker :=
  let entry := strip entry in
  if negb (truthy entry) then None
  else if negb (contains (u ",") entry) then
    Some {| name := entry; title := None; company := None |}
  else
    let parts := map strip (split (u ",") entry) in
    if (length parts =? 2)%nat then
      Some {| name := item [] parts 0; title := None;
              company := Some (item [] parts 1) |}
    else if member (item [] parts (-1)) COMPANY_SUFFIXES then
      Some {| name := item [] parts 0;
              title := if (3 <? length parts)%nat
                       then Some (join (u ", ") (slice parts 1 (-2)))
                       else None;
              company := Some (item [] parts (-2) ++ u ", "
                               ++ item [] parts (-1)) |}
    else
      Some {| name := item [] parts 0;
              title := if (2 <? length parts)%nat
                       then Some (join (u ", ") (slice parts 1 (-1)))
                       else None;
              company := Some (item [] parts (-1)) |}.

Definition _parse_speaker_group (group : str) : list Speaker :=
  let entries := map strip (split (u " & ") group) in
  let last_has_comma := contains (u ",") (item [] entries (-1)) in
  let others_have_commas :=
    existsb (contains (u ",")) (slice_to entries (-1)) in
  if (1 <? length entries)%nat && last_has_comma && negb others_have_commas
  then
    let company :=
      normalize_company_name (split (u ",") (item [] entries (-1))) 1 in
    let names :=
      slice_to entries (-1)
      ++ [strip (item [] (split (u ",") (item [] entries (-1))) 0)] in
    map (fun n => {| name := n; title := None; company := Some company |})
        names
  else
    flat_map (fun entry =>
                match parse_speaker_entry entry with
                | Some speaker => [speaker]
                | None => []
                end) entries.

Definition extract_speakers (summary : str) : list Speaker :=
  if negb (truthy summary) || negb (contains (u " - ") summary) then []
  else
    let speaker_section := strip (item [] (split1 (u " - ") summary) 1) in
    if contains (u ";") speaker_section then
      flat_map (fun group => _parse_speaker_group (strip group))
               (split (u ";") speaker_section)
    else _parse_speaker_group speaker_section.

(** ** Documents *)

Record DocMetadata := {
  doc_title : str;
  doc_description : str;
  doc_url : str;
  doc_uid : str;
  doc_start : str;
  doc_end : str;
  doc_categories : list str;
  doc_location : option Location;       (* key absent when [None] *)
  doc_speakers : option (list Speaker)  (* key absent when [None] *)
}.

Record Document := {
  text : str;
  metadata : DocMetadata
}.

Record Index := {
  index_name : str;
  documents : list Document
}.

(** [any(cat in EXCLUDED_CATEGORIES for cat in event.get("categories", []))] *)
Definition excluded (event : ParseSchedule.Event) : bool :=
  existsb (fun cat => member cat EXCLUDED_CATEGORIES)
          (ParseSchedule.categories event).

Section Normalizer.

(** [unicodedata.normalize("NFKD", text)]: the decomposition tables of the
    Unicode database are not part of the program. *)
Variable nfkd : str -> str.

Definition is_ascii (c : N) : bool := (c <? 128)%N.

(** [to_ascii]: [encode("ascii", "ignore")] drops what is not ASCII. *)
Definition to_ascii (text : str) : str :=
  if negb (truthy text) then []
  else filter is_ascii (nfkd text).

Definition format_event_to_document (event : ParseSchedule.Event)
  : Document :=
  let summary := to_ascii (ParseSchedule.summary event) in
  let title :=
    if contains (u " - ") summary
    then strip (item [] (split (u " - ") summary) 0)
    else summary in
  let description := to_ascii (ParseSchedule.description event) in
  let speakers := extract_speakers summary in
  let location := parse_location (ParseSchedule.location event) in
  let categories := map to_ascii (ParseSchedule.categories event) in
  let metadata :=
    {| doc_title := title;
       doc_description := description;
       doc_url := ParseSchedule.url event;
       doc_uid := ParseSchedule.uid event;
       doc_start := ParseSchedule.dtstart event;
       doc_end := ParseSchedule.dtend event;
       doc_categories := categories;
       doc_location := location;
       doc_speakers :=
         match speakers with [] => None | _ :: _ => Some speakers end |} in
  let text_parts :=
    (if truthy description then [description] else [])
    ++ (match speakers with
        | [] => []
        | _ :: _ =>
            [u "Speakers: "
             ++ join (u ", ") (map speaker_to_text speakers) ++ u "."]
        end)
    ++ (match location with
        | Some loc => [u "Location: " ++ location_to_text loc ++ u "."]
        | None => []
        end)
    ++ (match categories with
        | [] => []
        | _ :: _ => [u "Categories: " ++ join (u ", ") categories ++ u "."]
        end) in
  {| text := join (u " ") text_parts; metadata := metadata |}.

(** [format_schedule_for_indexing] on the calendar read from
    [schedule.json]; the result is what is written to the output file. *)
Definition format_schedule_for_indexing
  (schedule_data : ParseSchedule.Calendar) (index_name : str) : Index :=
  let events := ParseSchedule.events schedule_data in
  let session_events := filter (fun event => negb (excluded event)) events in
  {| index_name := index_name;
     documents := map format_event_to_document session_events |}.

End Normalizer.

(** A decomposition over a few letters of Latin-1, enough to run the
    formatter on examples: each listed letter becomes its base letter and a
    combining mark, every other code point stays. *)
Definition nfkd_latin (s : str) : str :=
  flat_map (fun c =>
              if (c =? 233)%N then [101; 769]         (* e acute *)
              else if (c =? 232)%N then [101; 768]    (* e grave *)
              else if (c =? 252)%N then [117; 776]    (* u diaeresis *)
              else if (c =? 241)%N then [110; 771]    (* n tilde *)
              else if (c =? 160)%N then [32]          (* no-break space *)
              else [c])%N s.

End FormatSchedule.

(* ================================================================== *)
(** * The specification's wording, where it is compared with the code *)
(* ================================================================== *)

Module Spec.

Import Py FormatSchedule.

(** "Strip everything from the first occurrence of [, Atlanta] onward":
    the venue-city token read as the literal text [", Atlanta"]. *)
Definition before_city_token (s : str) : str :=
  item [] (split1 (u ", Atlanta") s) 0.

(** The location parser with that literal token, the rest as in the code. *)
Definition parse_location_literal (location : str) : option Location :=
  if negb (truthy location) then None
  else
    let location := strip (before_city_token location) in
    let parts := map strip (split (u "|") location) in
    let loc := fold_left assign_part parts no_location in
    if opt_truthy (building loc) || opt_truthy (level loc)
       || opt_truthy (room loc)
    then Some loc else None.

End Spec.

(* ================================================================== *)
(** * Relations and invariants used in the proofs *)
(* ================================================================== *)

Module Inv.

Import Py FormatSchedule.

(** The value of a [CATEGORIES] line: what follows [CATEGORIES:] on the
    stripped line; [None] for any other line. *)
Definition categories_value (raw : str) : option str :=
  if startswith (u "CATEGORIES:") (strip raw)
  then Some (slice_from (strip raw) 11) else None.

(** The categories the lines of one block give: the comma-split entries, each
    trimmed, of its last [CATEGORIES] line, and none without such a line. *)
Definition block_categories (body : list str) : list str :=
  fold_left (fun acc raw =>
               match categories_value raw with
               | Some v => map strip (split (u ",") v)
               | None => acc
               end) body [].

(** The blocks of a document, in order: the physical lines between a
    [BEGIN:VEVENT] line and the next [END:VEVENT] line with no
    [BEGIN:VEVENT] line between the two.  [open] holds the lines read since
    the last [BEGIN:VEVENT], if a block is open. *)
Fixpoint blocks (open : option (list str)) (lines : list str)
  : list (list str) :=
  match lines with
  | [] => []
  | raw :: rest =>
      if str_eqb (strip raw) (u "BEGIN:VEVENT") then blocks (Some []) rest
      else
        match open with
        | Some body =>
            if str_eqb (strip raw) (u "END:VEVENT")
            then body :: blocks None rest
            else blocks (Some (body ++ [raw])) rest
        | None => blocks None rest
        end
  end.

(** The loop and the blocks read so far agree on the open block. *)
Definition same_block (st : ParseSchedule.state) (open : option (list str))
  : Prop :=
  match ParseSchedule.current_event st, open with
  | Some e, Some body => ParseSchedule.categories e = block_categories body
  | None, None => True
  | _, _ => False
  end.

(** [c] lowers to the single character [x]. *)
Definition lowers_to (c x : N) : Prop := lower_char c = [x].

(** No combining dot above (U+0307), the second code point of the lower case
    of U+0130. *)
Definition no_dot (q : str) : bool := forallb (fun x => negb (x =? 775)%N) q.

(** No field of the location holds the empty string. *)
Definition filled (loc : Location) : Prop :=
  building loc <> Some [] /\ level loc <> Some [] /\ room loc <> Some [].

End Inv.

(* ================================================================== *)
(** * Notions used to state further properties *)
(* ================================================================== *)

Module Obs.

Import Py ParseSchedule FormatSchedule.

(** The line is a block-begin (resp. block-end) marker once stripped. *)
Definition is_begin (raw : str) : bool := str_eqb (strip raw) (u "BEGIN:VEVENT").
Definition is_end (raw : str) : bool := str_eqb (strip raw) (u "END:VEVENT").

(** One more event is being read. *)
Definition open_events (st : state) : nat :=
  match current_event st with Some _ => 1 | None => 0 end.

(** Only white space. *)
Definition blank (s : str) : Prop := forallb isspace s = true.

(** Every character of [s] satisfies [P]. *)
Definition all_chars (P : N -> Prop) (s : str) : Prop :=
  forall x, In x s -> P x.

Definition all_chars_opt (P : N -> Prop) (o : option str) : Prop :=
  match o with Some s => all_chars P s | None => True end.

Definition all_chars_speaker (P : N -> Prop) (s : Speaker) : Prop :=
  all_chars P (name s) /\ all_chars_opt P (title s)
  /\ all_chars_opt P (company s).

(** Only ASCII. *)
Definition ascii (x : N) : Prop := is_ascii x = true.

(** Nowhere in [h], followed by [s], does an occurrence of [sep] begin. *)
Definition no_start (sep h s : str) : Prop :=
  forall a b, h = a ++ b -> b <> [] -> startswith sep (b ++ s) = false.

(** The text fields the clean-up of [END:VEVENT] leaves trimmed. *)
Definition trimmed_event (e : Event) : Prop :=
  strip (summary e) = summary e
  /\ strip (description e) = description e
  /\ strip (location e) = location e.

(** [f] is a contiguous part of [s]. *)
Definition part_of (f s : str) : Prop := exists a c, s = a ++ f ++ c.

(** The city pattern matches nowhere in [f]. *)
Definition no_city (f : str) : Prop :=
  forall a b, f = a ++ b -> city_at b = false.

(** A value as [parse_location] stores it: not empty, trimmed, without [|]
    and without a match of the city pattern. *)
Definition field_ok (f : str) : Prop :=
  f <> [] /\ strip f = f /\ ~ In 124%N f /\ no_city f.

(** A segment that is read as a room: neither prefix test holds. *)
Definition room_ok (r : str) : Prop :=
  startswith (u "building ") (lower r) = false
  /\ startswith (u "level ") (lower r) = false.

(** What follows a segment in the text of a location: nothing, or the
    separator. *)
Definition after_segment (t : str) : Prop :=
  t = [] \/ exists t', t = 32%N :: 124%N :: t'.

Definition opt_holds (Q : str -> Prop) (o : option str) : Prop :=
  match o with Some f => Q f | None => True end.

Definition loc_ok (loc : Location) : Prop :=
  opt_holds field_ok (building loc)
  /\ opt_holds field_ok (level loc)
  /\ opt_holds (fun r => field_ok r /\ room_ok r) (room loc).

(** The list of an optional speaker. *)
Definition speaker_list (o : option Speaker) : list Speaker :=
  match o with Some s => [s] | None => [] end.

End Obs.

(** Test inputs are written line by line. *)
Definition ics (lines : list string) : Py.str :=
  Py.join [Py.NL] (map Py.u lines).
(* ================================================================== *)
(** * The model of the runtime on small inputs *)
(* ================================================================== *)

Section RuntimeExamples.

Import Py PyDatetime.

Example split_pieces :
  split (u ",") (u "a,,b,") = [u "a"; []; u "b"; []]
  /\ split (u ",") [] = [[]]
  /\ split (u " & ") (u "A & B&C & D") = [u "A"; u "B&C"; u "D"].
Proof. repeat split; reflexivity. Qed.

Example split1_first_only :
  split1 (u ":") (u "URL:https://x") = [u "URL"; u "https://x"]
  /\ split1 (u " - ") (u "no dash") = [u "no dash"].
Proof. split; reflexivity. Qed.

Example strip_both_ends :
  strip ([9; 32] ++ u "a b" ++ [13; 10])%N = u "a b".
Proof. reflexivity. Qed.

Example replace_left_to_right :
  replace (u "\\") (u "\") (u "a\\\b") = u "a\\b".
Proof. reflexivity. Qed.

Example slices :
  slice [1; 2; 3; 4; 5]%Z 1 (-2) = [2; 3]%Z
  /\ slice [1; 2; 3]%Z 1 (-2) = []
  /\ slice_to [1; 2; 3]%Z (-1) = [1; 2]%Z
  /\ item 0%Z [1; 2; 3]%Z (-1) = 3%Z.
Proof. repeat split; reflexivity. Qed.

Example int_literals :
  int_of_str (u " +1_0 ") = Some 10%Z
  /\ int_of_str (u "-0") = Some 0%Z
  /\ int_of_str (u "1__0") = None
  /\ int_of_str (u "0x10") = None
  /\ int_of_str [] = None
  /\ int_of_str [160; 53; 12288]%N = Some 5%Z
  /\ int_of_str [28; 53]%N = None
  /\ int_of_str [53; 31]%N = None.
Proof. repeat split; reflexivity. Qed.

Example strptime_lenient :
  strptime (u "2025111T140000Z")
  = Ok {| year := 2025; month := 11; day := 1;
          hour := 14; minute := 0; second := 0 |}
  /\ strptime (u "20250230T000000Z") = Raise ValueError
  /\ strptime (u "20251118T140000Z ") = Raise ValueError.
Proof. repeat split; vm_compute; reflexivity. Qed.

Example daylight_saving_2025 :
  new_york_utcoffset 1741503599 2025 = (-18000)%Z     (* 2025-03-09 06:59:59 *)
  /\ new_york_utcoffset 1741503600 2025 = (-14400)%Z  (* 2025-03-09 07:00:00 *)
  /\ new_york_utcoffset 1762063199 2025 = (-14400)%Z  (* 2025-11-02 05:59:59 *)
  /\ new_york_utcoffset 1762063200 2025 = (-18000)%Z. (* 2025-11-02 06:00:00 *)
Proof. repeat split; vm_compute; reflexivity. Qed.

End RuntimeExamples.

(* ================================================================== *)
(** * Lemmas on strings *)
(* ================================================================== *)

Section StringFacts.

Import Py.

Lemma str_eqb_eq (a b : str) : str_eqb a b = true <-> a = b.
Proof.
  revert b; induction a as [|x a IH]; intros [|y b]; simpl;
    try (split; [discriminate | discriminate]); try tauto.
  rewrite andb_true_iff, N.eqb_eq, IH.
  split; [intros [-> ->]; reflexivity | intros H; inversion H; auto].
Qed.

Lemma str_eqb_refl (a : str) : str_eqb a a = true.
Proof. apply str_eqb_eq; reflexivity. Qed.

Lemma startswith_app (p s : str) : startswith p (p ++ s) = true.
Proof.
  induction p as [|x p IH]; simpl; [reflexivity|].
  rewrite N.eqb_refl; exact IH.
Qed.

Lemma startswith_split (p s : str) :
  startswith p s = true -> exists r, s = p ++ r.
Proof.
  revert s; induction p as [|x p IH]; intros s H; simpl in *.
  - exists s; reflexivity.
  - destruct s as [|y s]; [discriminate|].
    apply andb_true_iff in H as [Hx Hp]. apply N.eqb_eq in Hx; subst y.
    destruct (IH _ Hp) as [r ->]. exists r; reflexivity.
Qed.

(** What [lstrip] removes is white space, and what it leaves does not start
    with white space. *)
Lemma lstrip_split (s : str) :
  exists w, s = w ++ lstrip s /\ forallb isspace w = true.
Proof.
  induction s as [|c s (w & E & W)]; simpl.
  - exists []; auto.
  - destruct (isspace c) eqn:Hc.
    + exists (c :: w); simpl; rewrite Hc, W, <- E; auto.
    + exists []; auto.
Qed.

Lemma lstrip_head (s : str) c r : lstrip s = c :: r -> isspace c = false.
Proof.
  induction s as [|x s IH]; simpl; [discriminate|].
  destruct (isspace x) eqn:Hx; [exact IH|].
  intros H; inversion H; subst; exact Hx.
Qed.

Lemma lstrip_nil (s : str) : lstrip s = [] <-> forallb isspace s = true.
Proof.
  induction s as [|x s IH]; simpl; [tauto|].
  destruct (isspace x); simpl; [exact IH|].
  split; discriminate.
Qed.

Lemma rstrip_split (s : str) :
  exists w, s = rstrip s ++ w /\ forallb isspace w = true.
Proof.
  unfold rstrip. destruct (lstrip_split (rev s)) as (w & E & W).
  exists (rev w). split.
  - rewrite <- rev_app_distr, <- E, rev_involutive; reflexivity.
  - rewrite forallb_forall in *. intros x Hx. apply W, in_rev, Hx.
Qed.

Lemma forallb_rev (f : N -> bool) (s : str) :
  forallb f (rev s) = forallb f s.
Proof.
  apply eq_true_iff_eq. rewrite !forallb_forall.
  split; intros H x Hx; apply H; [apply -> in_rev | apply <- in_rev]; exact Hx.
Qed.

(** A stripped string is empty or starts and ends with something else than
    white space. *)
Lemma strip_head (s : str) c r : strip s = c :: r -> isspace c = false.
Proof.
  unfold strip. intros H.
  destruct (rstrip_split (lstrip s)) as (w & E & _).
  rewrite H in E. simpl in E. eapply lstrip_head; exact E.
Qed.

Lemma strip_last (s : str) r c : strip s = r ++ [c] -> isspace c = false.
Proof.
  unfold strip, rstrip. intros H.
  apply (f_equal (@rev N)) in H.
  rewrite rev_involutive, rev_app_distr in H. simpl in H.
  eapply lstrip_head; exact H.
Qed.

Lemma strip_nil (s : str) : strip s = [] <-> forallb isspace s = true.
Proof.
  unfold strip, rstrip.
  rewrite <- lstrip_nil.
  split; intros H.
  - apply (f_equal (@rev N)) in H. rewrite rev_involutive in H. simpl in H.
    apply lstrip_nil in H. rewrite forallb_rev in H.
    destruct (lstrip s) as [|c r] eqn:E; [reflexivity|].
    simpl in H. erewrite lstrip_head in H by exact E. discriminate.
  - rewrite H. reflexivity.
Qed.

Lemma strip_not_nil (s : str) c :
  In c s -> isspace c = false -> strip s <> [].
Proof.
  intros Hin Hc H. apply strip_nil in H.
  rewrite forallb_forall in H. rewrite (H _ Hin) in Hc. discriminate.
Qed.

(** The test of the continuation branch never holds for a stripped line. *)
Lemma strip_no_leading_space (s : str) :
  startswith (u " ") (strip s) = false.
Proof.
  destruct (strip s) as [|c r] eqn:E; [reflexivity|].
  apply strip_head in E. change (u " ") with [32%N].
  cbn [startswith]. destruct (N.eqb_spec 32 c) as [<-|]; [discriminate E | reflexivity].
Qed.

(** [split(sep, 1)] cuts at an occurrence of the separator. *)
Lemma split1_aux_cut (sep s cur : str) :
  sep <> [] -> contains sep s = true ->
  exists a b, split1_aux sep s cur = [rev cur ++ a; b] /\ s = a ++ sep ++ b.
Proof.
  intros Hsep. revert cur; induction s as [|c s IH]; intros cur H.
  - destruct sep; [congruence | discriminate].
  - cbn [split1_aux]. cbn [contains] in H.
    destruct (startswith sep (c :: s)) eqn:E.
    + apply startswith_split in E as [b Hb].
      exists [], b. rewrite Hb, skipn_app, skipn_all, Nat.sub_diag, app_nil_r.
      split; reflexivity.
    + cbn [orb] in H. destruct (IH (c :: cur) H) as (a & b & E1 & E2).
      exists (c :: a), b. rewrite E1, E2. cbn [rev].
      rewrite <- app_assoc. split; reflexivity.
Qed.

Lemma split1_colon (line : str) :
  contains (u ":") line = true ->
  line = item [] (split1 (u ":") line) 0 ++ u ":"
         ++ item [] (split1 (u ":") line) 1.
Proof.
  intros H. unfold split1.
  destruct (@split1_aux_cut (u ":") line []) as (a & b & E & L);
    [discriminate | exact H |].
  rewrite E. exact L.
Qed.

End StringFacts.

(* ================================================================== *)
(** * The calendar tokenizer *)
(* ================================================================== *)

Section Tokenizer.

Import Py PyDatetime ParseSchedule Inv.

(** Case analysis on the tests of a branching definition. *)
Ltac branch :=
  match goal with
  | |- context [if ?c then _ else _] => destruct c eqn:?
  | |- context [match ?x with Some _ => _ | None => _ end] => destruct x eqn:?
  | |- context [match ?x with Ok _ => _ | Raise _ => _ end] => destruct x eqn:?
  end.

Lemma process_line_begin (st : state) (raw : str) :
  strip raw = u "BEGIN:VEVENT" ->
  process_line st raw
  = Ok {| calendar := calendar st;
          current_event := Some new_event; current_field := None |}.
Proof.
  intros H. unfold process_line. rewrite H. reflexivity.
Qed.

Lemma process_line_end (st : state) (e : Event) (raw : str) :
  current_event st = Some e ->
  strip raw = u "END:VEVENT" ->
  process_line st raw
  = Ok {| calendar := {| metadata := metadata (calendar st);
                         events := events (calendar st) ++ [finish_event e] |};
          current_event := None; current_field := None |}.
Proof.
  intros He H. unfold process_line. rewrite H, He. reflexivity.
Qed.

Lemma process_line_categories (st : state) (e : Event) (raw v : str) :
  current_event st = Some e ->
  strip raw = u "CATEGORIES:" ++ v ->
  process_line st raw
  = Ok (with_event (set_categories (map strip (split (u ",") v)) e)
                   k_categories st).
Proof.
  intros He H. unfold process_line. rewrite H, He. reflexivity.
Qed.

Lemma finish_event_categories (e : Event) :
  categories (finish_event e) = categories e.
Proof. reflexivity. Qed.

(** The events list changes at an [END:VEVENT] line only, by one event. *)
Lemma events_grow_at_end (st st' : state) (raw : str) :
  process_line st raw = Ok st' ->
  events (calendar st') = events (calendar st)
  \/ (strip raw = u "END:VEVENT"
      /\ exists e, current_event st = Some e
           /\ events (calendar st')
              = events (calendar st) ++ [finish_event e]).
Proof.
  unfold process_line, parse_field, append_field, bind.
  destruct (current_field st) as [[]|];
    repeat branch; intros H; inversion H; subst; clear H; simpl; auto;
    right; (split; [apply str_eqb_eq; assumption | eexists; eauto]).
Qed.

(** After a [BEGIN:VEVENT] line nothing depends on the event that was open. *)
Lemma run_begin_forgets (c : Calendar) (e : option Event) (k : option field)
      (raw : str) (rest : list str) :
  strip raw = u "BEGIN:VEVENT" ->
  run {| calendar := c; current_event := e; current_field := k |}
      (raw :: rest)
  = run {| calendar := c; current_event := Some new_event;
           current_field := None |} rest.
Proof.
  intros H. simpl. rewrite process_line_begin by exact H. reflexivity.
Qed.

End Tokenizer.

Section TokenizerClaims.

Import Py PyDatetime ParseSchedule.

(** C10: a [BEGIN:VEVENT] line read while an event is still open replaces
    that event by a fresh one with every field at its default, and the rest
    of the run does not depend on the event that was open; the events list
    changes only at an [END:VEVENT] line, by the event then open.  On
    the calendar [BEGIN, UID:1, SUMMARY:first, BEGIN, UID:2, END] the only
    event of the output is the second one. *)
Theorem second_begin_discards_open_event :
  (forall (st : state) (raw : str),
      strip raw = u "BEGIN:VEVENT" ->
      process_line st raw
      = Ok {| calendar := calendar st;
              current_event := Some new_event; current_field := None |}
      /\ forall rest,
          run st (raw :: rest)
          = run {| calendar := calendar st; current_event := None;
                   current_field := None |} (raw :: rest))
  /\ (forall (st st' : state) (raw : str),
         process_line st raw = Ok st' ->
         events (calendar st') = events (calendar st)
         \/ (strip raw = u "END:VEVENT"
             /\ exists e, current_event st = Some e
                  /\ events (calendar st')
                     = events (calendar st) ++ [finish_event e]))
  /\ parse_ics_to_json
       (ics ["BEGIN:VEVENT"; "UID:1"; "SUMMARY:first"; "BEGIN:VEVENT";
             "UID:2"; "END:VEVENT"])
     = Ok {| metadata := no_metadata;
             events := [set_uid (u "2") new_event] |}.
Proof.
  split; [|split].
  - intros st raw H. split.
    + apply process_line_begin, H.
    + intros rest. destruct st as [c e k]. simpl calendar.
      rewrite !run_begin_forgets by exact H. reflexivity.
  - intros st st' raw. apply events_grow_at_end.
  - vm_compute. reflexivity.
Qed.

Lemma second_begin_discards_open_event_witness :
  let st := with_event (set_uid (u "1") new_event) k_uid initial in
  let raw := u "BEGIN:VEVENT" ++ [13%N] in
  strip raw = u "BEGIN:VEVENT"
  /\ process_line st raw
     = Ok {| calendar := calendar st;
             current_event := Some new_event; current_field := None |}.
Proof.
  split; [reflexivity|].
  apply (proj1 second_begin_discards_open_event). reflexivity.
Defined.

(** C2 (the code does otherwise): every line is stripped before it is
    looked at, so the test [line.startswith(" ")] of the continuation branch
    never holds; on [DESCRIPTION:Hello] followed by the line [ World] the
    description stays [Hello]. *)
Theorem continuation_line_is_dropped :
  (forall raw : str, startswith (u " ") (strip raw) = false)
  /\ parse_ics_to_json
       (ics ["BEGIN:VEVENT"; "DESCRIPTION:Hello"; " World"; "END:VEVENT"])
     = Ok {| metadata := no_metadata;
             events := [set_description (u "Hello") new_event] |}.
Proof.
  split.
  - apply strip_no_leading_space.
  - vm_compute. reflexivity.
Qed.

(** C4 (the code does otherwise): the value of a [SEQUENCE] line goes
    through [int] outside any [try], so on [SEQUENCE:abc] inside an event
    the parser raises [ValueError] and returns no calendar. *)
Theorem sequence_value_raises :
  parse_ics_to_json (ics ["BEGIN:VEVENT"; "SEQUENCE:abc"; "END:VEVENT"])
  = Raise ValueError.
Proof. vm_compute. reflexivity. Qed.

(** What the tokenizer does pass over: outside an event, a line that is
    neither calendar metadata nor [BEGIN:VEVENT]. *)
Lemma stray_end_ignored (st : state) (raw : str) :
  current_event st = None ->
  strip raw = u "END:VEVENT" ->
  process_line st raw = Ok st.
Proof.
  intros He H. unfold process_line. rewrite H, He. reflexivity.
Qed.

(** The fallback of [parse_ics_datetime]: a string [strptime] rejects comes
    back as it is. *)
Lemma parse_ics_datetime_fallback (s : str) :
  strptime s = Raise ValueError ->
  parse_ics_datetime s = Ok s.
Proof.
  intros H. unfold parse_ics_datetime. rewrite H.
  destruct s; reflexivity.
Qed.

(** C7 (the code does otherwise): only [ValueError] is caught.  The
    timestamp of the first hours of year 1 parses, its New York local time
    lies before year 1, and the [OverflowError] of the conversion reaches
    the caller.  The two other inputs behave as the claim says. *)
Theorem parse_ics_datetime_overflow_escapes :
  parse_ics_datetime (u "00010101T000000Z") = Raise OverflowError
  /\ parse_ics_datetime (u "20251118T140000Z")
     = Ok (u "2025-11-18T09:00:00-05:00")
  /\ parse_ics_datetime (u "20250718T140000Z")
     = Ok (u "2025-07-18T10:00:00-04:00")
  /\ parse_ics_datetime (u "next week") = Ok (u "next week").
Proof. repeat split; vm_compute; reflexivity. Qed.

End TokenizerClaims.

(* ================================================================== *)
(** * The document formatter *)
(* ================================================================== *)

Section FormatterClaims.

Import Py FormatSchedule.

(** C1 (the code does otherwise): in the shared-company branch the last
    entry is split on commas without trimming, so the suffix the normalizer
    looks up is [" Inc."], with its leading space; that is not a suffix
    token, and the company of both speakers comes out as [" Inc."] instead of
    ["Acme, Inc."]. *)
Theorem shared_company_loses_company_name :
  extract_speakers (u "Panel - Jane Doe & John Smith, Acme, Inc.")
  = [ {| name := u "Jane Doe"; title := None; company := Some (u " Inc.") |};
      {| name := u "John Smith"; title := None;
         company := Some (u " Inc.") |} ]
  /\ normalize_company_name (split (u ",") (u "John Smith, Acme, Inc.")) 1
     = u " Inc."
  /\ member (u " Inc.") COMPANY_SUFFIXES = false.
Proof. repeat split; vm_compute; reflexivity. Qed.

Lemma member_In (x : str) (S : list str) : member x S = true <-> In x S.
Proof.
  unfold member. rewrite existsb_exists. split.
  - intros (y & Hy & E). apply str_eqb_eq in E. subst; exact Hy.
  - intros H. exists x. split; [exact H | apply str_eqb_refl].
Qed.

Lemma excluded_spec (e : ParseSchedule.Event) :
  excluded e = true
  <-> exists cat, In cat (ParseSchedule.categories e)
                  /\ In cat EXCLUDED_CATEGORIES.
Proof.
  unfold excluded. rewrite existsb_exists.
  split; intros (cat & H1 & H2); exists cat; split; auto;
    apply member_In; exact H2.
Qed.

Section WithNormalizer.

Variable nfkd : str -> str.

(** C3 (the code does otherwise): [format_event_to_document] folds the
    summary, the description and the categories to ASCII, and hands the
    location to [parse_location] as it is.  For the location ["Café"] the
    room of the document keeps the code point 233, where the ASCII-folded
    location would give the room ["Cafe"]. *)
Theorem location_is_parsed_unnormalized :
  (forall event : ParseSchedule.Event,
      doc_location (metadata (format_event_to_document nfkd event))
      = parse_location (ParseSchedule.location event))
  /\ (let event :=
        ParseSchedule.set_location (u "Caf" ++ [233%N])
                                   ParseSchedule.new_event in
      doc_location (metadata (format_event_to_document nfkd event))
      = Some {| building := None; level := None;
                room := Some (u "Caf" ++ [233%N]) |}
      /\ parse_location
           (to_ascii nfkd_latin (ParseSchedule.location event))
         = Some {| building := None; level := None;
                   room := Some (u "Cafe") |}).
Proof.
  split; [reflexivity|]. split; vm_compute; reflexivity.
Qed.

Lemma filter_ascii_all (s : str) : forallb is_ascii (filter is_ascii s) = true.
Proof.
  apply forallb_forall. intros x Hx. apply filter_In in Hx. tauto.
Qed.

Lemma filter_ascii_id (s : str) :
  forallb is_ascii s = true -> filter is_ascii s = s.
Proof.
  induction s as [|c s IH]; simpl; [reflexivity|].
  intros H. apply andb_true_iff in H as [Hc Hs].
  rewrite Hc, IH by exact Hs. reflexivity.
Qed.

Hypothesis nfkd_ascii : forall s, forallb is_ascii s = true -> nfkd s = s.

Lemma to_ascii_fixes_ascii (s : str) :
  forallb is_ascii s = true -> to_ascii nfkd s = s.
Proof.
  intros H. unfold to_ascii. destruct s as [|c s]; [reflexivity|].
  cbn [truthy negb]. rewrite nfkd_ascii by exact H.
  apply filter_ascii_id, H.
Qed.

Lemma to_ascii_is_ascii (s : str) : forallb is_ascii (to_ascii nfkd s) = true.
Proof.
  unfold to_ascii. destruct (negb (truthy s)); [reflexivity|].
  apply filter_ascii_all.
Qed.

End WithNormalizer.

(** C9: [to_ascii] is idempotent, for every normalization that leaves
    ASCII-only text as it is (as NFKD does). *)
Theorem to_ascii_idempotent (nfkd : str -> str) :
  (forall s, forallb is_ascii s = true -> nfkd s = s) ->
  forall s, to_ascii nfkd (to_ascii nfkd s) = to_ascii nfkd s.
Proof.
  intros H s. apply to_ascii_fixes_ascii; [exact H | apply to_ascii_is_ascii].
Qed.

Lemma nfkd_latin_ascii (s : str) :
  forallb is_ascii s = true -> nfkd_latin s = s.
Proof.
  induction s as [|c s IH]; [reflexivity|].
  intros H. apply andb_true_iff in H as [Hc Hs].
  unfold nfkd_latin in *. cbn [flat_map]. rewrite IH by exact Hs.
  unfold is_ascii in Hc. apply N.ltb_lt in Hc.
  repeat match goal with
         | |- context [(c =? ?k)%N] =>
             destruct (N.eqb_spec c k); [exfalso; lia|]
         end.
  reflexivity.
Qed.

Lemma to_ascii_idempotent_witness :
  (forall s, forallb is_ascii s = true -> nfkd_latin s = s)
  /\ to_ascii nfkd_latin (to_ascii nfkd_latin (u "Caf" ++ [233%N]))
     = to_ascii nfkd_latin (u "Caf" ++ [233%N]).
Proof.
  split; [exact nfkd_latin_ascii|].
  apply (to_ascii_idempotent nfkd_latin nfkd_latin_ascii).
Defined.

End FormatterClaims.

Section Pipeline.

Import Py ParseSchedule FormatSchedule Inv.

(** The whole pipeline on two events, the second in an excluded category:
    both are in the parsed calendar, the first alone gives a document. *)
Lemma pipeline_example :
  exists cal,
    parse_ics_to_json
      (ics ["BEGIN:VEVENT"; "SUMMARY:Opening"; "CATEGORIES:Keynote, Main";
            "END:VEVENT";
            "BEGIN:VEVENT"; "SUMMARY:Badges"; "CATEGORIES:REGISTRATION";
            "END:VEVENT"]) = Ok cal
    /\ map categories (events cal)
       = [[u "Keynote"; u "Main"]; [u "REGISTRATION"]]
    /\ map (fun d => doc_categories (FormatSchedule.metadata d))
           (documents (format_schedule_for_indexing nfkd_latin cal
                                                    (u "schedule_index")))
       = [[u "Keynote"; u "Main"]].
Proof.
  eexists. split; [vm_compute; reflexivity|].
  split; vm_compute; reflexivity.
Qed.

End Pipeline.

(* ================================================================== *)
(** * Speakers *)
(* ================================================================== *)

Section Indexing.

Import Py.

Variable A : Type.
Implicit Types (l mid : list A) (d x y : A).

Lemma item_last d l x : item d (l ++ [x]) (-1) = x.
Proof.
  unfold item. rewrite length_app. cbn [length].
  replace (Z.of_nat (length l + 1) + -1)%Z with (Z.of_nat (length l)) by lia.
  cbn [Z.ltb Z.compare].
  destruct (Z.ltb_spec (Z.of_nat (length l)) 0); [lia|].
  rewrite Nat2Z.id. apply nth_middle.
Qed.

Lemma item_penultimate d l y x : item d (l ++ [y; x]) (-2) = y.
Proof.
  unfold item. rewrite length_app. cbn [length].
  replace (Z.of_nat (length l + 2) + -2)%Z with (Z.of_nat (length l)) by lia.
  cbn [Z.ltb Z.compare].
  destruct (Z.ltb_spec (Z.of_nat (length l)) 0); [lia|].
  rewrite Nat2Z.id. apply nth_middle.
Qed.

Lemma slice_inner1 x mid y : slice (x :: mid ++ [y]) 1 (-1) = mid.
Proof.
  unfold slice, bound. cbn [length Z.ltb Z.compare]. rewrite length_app.
  cbn [length].
  replace (Nat.min (S (length mid + 1)) (Z.to_nat 1)) with 1%nat by lia.
  replace (Z.to_nat (Z.max 0 (Z.of_nat (S (length mid + 1)) + -1)) - 1)%nat
    with (length mid) by lia.
  cbn [skipn]. rewrite firstn_app, Nat.sub_diag, firstn_all. cbn [firstn].
  apply app_nil_r.
Qed.

Lemma slice_inner2 x mid y z : slice (x :: mid ++ [y; z]) 1 (-2) = mid.
Proof.
  unfold slice, bound. cbn [length Z.ltb Z.compare]. rewrite length_app.
  cbn [length].
  replace (Nat.min (S (length mid + 2)) (Z.to_nat 1)) with 1%nat by lia.
  replace (Z.to_nat (Z.max 0 (Z.of_nat (S (length mid + 2)) + -2)) - 1)%nat
    with (length mid) by lia.
  cbn [skipn]. rewrite firstn_app, Nat.sub_diag, firstn_all. cbn [firstn].
  apply app_nil_r.
Qed.

Lemma slice_from_app l1 l2 (i : Z) :
  Z.of_nat (length l1) = i -> slice_from (l1 ++ l2) i = l2.
Proof.
  intros <-. unfold slice_from, bound.
  destruct (Z.ltb_spec (Z.of_nat (length l1)) 0); [lia|].
  rewrite Nat2Z.id, length_app.
  replace (Nat.min (length l1 + length l2) (length l1)) with (length l1) by lia.
  rewrite skipn_app, skipn_all, Nat.sub_diag. reflexivity.
Qed.

End Indexing.

(* ================================================================== *)
(** * The categories of the events and the blocks of the input *)
(* ================================================================== *)

Section Blocks.

Import Py PyDatetime ParseSchedule Inv.

Ltac branch :=
  match goal with
  | |- context [if ?c then _ else _] => destruct c eqn:?
  | |- context [match ?x with Some _ => _ | None => _ end] => destruct x eqn:?
  | |- context [match ?x with Ok _ => _ | Raise _ => _ end] => destruct x eqn:?
  end.

Lemma categories_value_spec (raw v : str) :
  categories_value raw = Some v <-> strip raw = u "CATEGORIES:" ++ v.
Proof.
  unfold categories_value. split.
  - destruct (startswith (u "CATEGORIES:") (strip raw)) eqn:E; [|discriminate].
    apply startswith_split in E as [r E]. rewrite E.
    rewrite slice_from_app by reflexivity. intros [= ->]. reflexivity.
  - intros ->. rewrite startswith_app, slice_from_app by reflexivity.
    reflexivity.
Qed.

Lemma block_categories_snoc (body : list str) (raw : str) :
  block_categories (body ++ [raw])
  = match categories_value raw with
    | Some v => map strip (split (u ",") v)
    | None => block_categories body
    end.
Proof. unfold block_categories. rewrite fold_left_app. reflexivity. Qed.

(** A line that is no [CATEGORIES] line leaves the categories of the open
    event as they are; no line but [END:VEVENT] changes the events. *)
Lemma process_line_other (st st' : state) (raw : str) :
  process_line st raw = Ok st' ->
  categories_value raw = None ->
  str_eqb (strip raw) (u "BEGIN:VEVENT") = false ->
  match current_event st with
  | Some e =>
      if str_eqb (strip raw) (u "END:VEVENT")
      then current_event st' = None
           /\ events (calendar st')
              = events (calendar st) ++ [finish_event e]
      else events (calendar st') = events (calendar st)
           /\ exists e', current_event st' = Some e'
                         /\ categories e' = categories e
  | None => current_event st' = None
            /\ events (calendar st') = events (calendar st)
  end.
Proof.
  unfold categories_value. intros H Hv Hb. revert H.
  destruct (startswith (u "CATEGORIES:") (strip raw)) eqn:Hc; [discriminate|].
  clear Hv.
  destruct (str_eqb (strip raw) (u "END:VEVENT")) eqn:Hend.
  - apply str_eqb_eq in Hend. unfold process_line. rewrite Hend.
    destruct (current_event st) as [e|] eqn:He; cbn; intros [= <-]; cbn; auto.
  - unfold process_line. rewrite strip_no_leading_space, Hb, Hend.
    unfold parse_field, bind.
    destruct (current_event st) as [e|] eqn:He.
    + repeat branch; intros H; inversion H; subst; clear H;
        cbn [events calendar current_event with_metadata with_event
             categories set_uid set_dtstamp set_dtstart set_dtend set_summary
             set_description set_location set_sequence set_url];
        try (split; [reflexivity | eexists; split; [eassumption | reflexivity]]);
        try (split; [reflexivity | eexists; split; reflexivity]).
      exfalso.
      match goal with
      | Hf : str_eqb _ (u "CATEGORIES") = true,
        Hk : contains (u ":") (strip raw) = true |- _ =>
          apply str_eqb_eq in Hf; apply split1_colon in Hk;
          rewrite Hf in Hk; rewrite Hk in Hc
      end.
      change (u "CATEGORIES" ++ u ":" ++ ?x) with (u "CATEGORIES:" ++ x) in Hc.
      rewrite startswith_app in Hc. discriminate.
    + repeat branch; intros H; inversion H; subst; clear H;
        cbn [events calendar current_event with_metadata]; auto.
Qed.

End Blocks.

Section BlocksRun.

Import Py PyDatetime ParseSchedule Inv.

(** One turn of the loop follows the blocks: the events appended are those
    of the blocks closed, with the categories of their lines. *)
Lemma process_line_blocks (st st' : state) (raw : str)
      (open : option (list str)) :
  process_line st raw = Ok st' ->
  same_block st open ->
  exists open' new,
    events (calendar st') = events (calendar st) ++ new
    /\ same_block st' open'
    /\ forall rest,
         map block_categories (blocks open (raw :: rest))
         = map categories new ++ map block_categories (blocks open' rest).
Proof.
  intros H R.
  destruct (str_eqb (strip raw) (u "BEGIN:VEVENT")) eqn:Hb.
  - apply str_eqb_eq in Hb.
    rewrite (process_line_begin st raw Hb) in H. injection H as <-.
    exists (Some []), []. cbn [events calendar]. rewrite app_nil_r.
    split; [reflexivity|]. split; [reflexivity|].
    intros rest. cbn [blocks]. rewrite Hb. reflexivity.
  - destruct (categories_value raw) as [v|] eqn:Hv.
    + apply categories_value_spec in Hv. unfold same_block in R.
      destruct (current_event st) as [e|] eqn:He;
        destruct open as [body|]; try contradiction.
      * rewrite (@process_line_categories st e raw v He Hv) in H.
        injection H as <-.
        exists (Some (body ++ [raw])), []. cbn [events calendar with_event].
        rewrite app_nil_r. split; [reflexivity|]. split.
        -- unfold same_block. cbn [current_event with_event].
           rewrite block_categories_snoc.
           rewrite (proj2 (categories_value_spec raw v) Hv). reflexivity.
        -- intros rest. cbn [blocks]. rewrite Hb, Hv. reflexivity.
      * assert (E : process_line st raw = Ok st)
          by (unfold process_line; rewrite Hv, He; reflexivity).
        rewrite E in H. injection H as <-.
        exists None, []. rewrite app_nil_r. split; [reflexivity|].
        split; [unfold same_block; rewrite He; exact I|].
        intros rest. cbn [blocks]. rewrite Hb. reflexivity.
    + pose proof (process_line_other st raw H Hv Hb) as P.
      unfold same_block in R.
      destruct (current_event st) as [e|] eqn:He;
        destruct open as [body|]; try contradiction.
      * destruct (str_eqb (strip raw) (u "END:VEVENT")) eqn:Hend.
        -- destruct P as [P1 P2]. exists None, [finish_event e].
           split; [exact P2|]. split; [unfold same_block; rewrite P1; exact I|].
           intros rest. cbn [blocks]. rewrite Hb, Hend. cbn [map app].
           rewrite finish_event_categories, R. reflexivity.
        -- destruct P as (P1 & e' & P2 & P3).
           exists (Some (body ++ [raw])), []. rewrite app_nil_r.
           split; [exact P1|]. split.
           ++ unfold same_block. rewrite P2, block_categories_snoc, Hv.
              rewrite P3. exact R.
           ++ intros rest. cbn [blocks]. rewrite Hb, Hend. reflexivity.
      * destruct P as [P1 P2]. exists None, []. rewrite app_nil_r.
        split; [exact P2|]. split; [unfold same_block; rewrite P1; exact I|].
        intros rest. cbn [blocks]. rewrite Hb. reflexivity.
Qed.

Lemma run_blocks (lines : list str) (st st' : state)
      (open : option (list str)) :
  run st lines = Ok st' ->
  same_block st open ->
  map categories (events (calendar st'))
  = map categories (events (calendar st))
    ++ map block_categories (blocks open lines).
Proof.
  revert st open; induction lines as [|raw rest IH]; intros st open H R.
  - injection H as <-. cbn [blocks map]. rewrite app_nil_r. reflexivity.
  - cbn [run] in H. destruct (process_line st raw) as [st1|] eqn:E;
      [|discriminate].
    cbn [bind] in H.
    destruct (process_line_blocks st raw open E R) as (o & new & E1 & R1 & B).
    rewrite (IH st1 o H R1), E1, B, map_app, app_assoc. reflexivity.
Qed.

(** The events of a parsed calendar are those of the blocks of the input,
    in order, each with the categories of its own lines. *)
Lemma parsed_categories_of_blocks (ics_content : str) (cal : Calendar) :
  parse_ics_to_json ics_content = Ok cal ->
  map categories (events cal)
  = map block_categories (blocks None (split [NL] ics_content)).
Proof.
  unfold parse_ics_to_json.
  destruct (run initial (split [NL] ics_content)) as [st|] eqn:E;
    [|discriminate].
  intros [= <-]. apply (run_blocks _ initial None E). exact I.
Qed.

(** ** What the blocks are *)

Lemma blocks_begin (pre : list str) (b : str) (rest : list str)
      (open : option (list str)) :
  strip b = u "BEGIN:VEVENT" ->
  blocks open (pre ++ b :: rest) = blocks open pre ++ blocks (Some []) rest.
Proof.
  intros Hb. revert open; induction pre as [|raw pre IH]; intros open.
  - cbn [app blocks]. rewrite Hb. reflexivity.
  - cbn [app blocks].
    destruct (str_eqb (strip raw) (u "BEGIN:VEVENT")); [apply IH|].
    destruct open as [body|]; [|apply IH].
    destruct (str_eqb (strip raw) (u "END:VEVENT")); [|apply IH].
    rewrite IH. reflexivity.
Qed.

Lemma blocks_body (acc body : list str) (e : str) (post : list str) :
  strip e = u "END:VEVENT" ->
  (forall l, In l body -> strip l <> u "BEGIN:VEVENT"
                          /\ strip l <> u "END:VEVENT") ->
  blocks (Some acc) (body ++ e :: post) = (acc ++ body) :: blocks None post.
Proof.
  intros He. revert acc; induction body as [|raw body IH]; intros acc H.
  - cbn [app blocks]. rewrite He, app_nil_r. reflexivity.
  - cbn [app blocks]. destruct (H raw (or_introl eq_refl)) as [H1 H2].
    destruct (str_eqb (strip raw) (u "BEGIN:VEVENT")) eqn:E1;
      [apply str_eqb_eq in E1; contradiction|].
    destruct (str_eqb (strip raw) (u "END:VEVENT")) eqn:E2;
      [apply str_eqb_eq in E2; contradiction|].
    rewrite IH by (intros l Hl; apply H; right; exact Hl).
    rewrite <- app_assoc. reflexivity.
Qed.

Lemma blocks_split (pre : list str) (b : str) (body : list str) (e : str)
      (post : list str) :
  strip b = u "BEGIN:VEVENT" -> strip e = u "END:VEVENT" ->
  (forall l, In l body -> strip l <> u "BEGIN:VEVENT"
                          /\ strip l <> u "END:VEVENT") ->
  blocks None (pre ++ b :: body ++ e :: post)
  = blocks None pre ++ body :: blocks None post.
Proof.
  intros Hb He H. rewrite (blocks_begin pre b _ None Hb).
  rewrite (blocks_body [] body e post He H). reflexivity.
Qed.

(** ** What the categories of a block are *)

Lemma block_categories_none (body : list str) (acc : list str) :
  (forall l, In l body -> categories_value l = None) ->
  fold_left (fun acc raw =>
               match categories_value raw with
               | Some v => map strip (split (u ",") v)
               | None => acc
               end) body acc = acc.
Proof.
  revert acc; induction body as [|raw body IH]; intros acc H; [reflexivity|].
  cbn [fold_left]. rewrite (H raw (or_introl eq_refl)).
  apply IH. intros l Hl. apply H. right. exact Hl.
Qed.

Lemma block_categories_last (body1 : list str) (raw v : str)
      (body2 : list str) :
  strip raw = u "CATEGORIES:" ++ v ->
  (forall l, In l body2 -> categories_value l = None) ->
  block_categories (body1 ++ raw :: body2) = map strip (split (u ",") v).
Proof.
  intros Hv H. unfold block_categories. rewrite fold_left_app.
  cbn [fold_left]. rewrite (proj2 (categories_value_spec raw v) Hv).
  apply block_categories_none, H.
Qed.

End BlocksRun.

Section PipelineBlocks.

Import Py ParseSchedule FormatSchedule Inv.

Lemma documents_length (nfkd : str -> str) (cal : Calendar) (index : str) :
  length (documents (format_schedule_for_indexing nfkd cal index))
  = length (filter (fun e => negb (excluded e)) (events cal)).
Proof. apply length_map. Qed.

(** C5 (the code does otherwise): the events of a parsed calendar are those
    of the blocks of the input, in order, and the categories of each are the
    comma-split entries, each trimmed and in order, of the last [CATEGORIES]
    line of its own block (none without such a line), where a line is a
    physical line: the continuation of a folded [CATEGORIES] line is passed
    over.  So with [CATEGORIES:Keynote,REGISTR] folded before [ATION] the
    event has the categories [Keynote] and [REGISTR], misses the exclusion
    set and gives a document, where the unfolded line gives [Keynote] and
    [REGISTRATION] and no document.  From the parsed events on the order is
    kept: the document of an event lists its categories in order, each
    folded to ASCII, and the documents are the formatted events whose
    categories miss the exclusion set, one each, in the order of the
    events. *)
Theorem categories_of_physical_lines (nfkd : str -> str) :
  (forall (ics_content : str) (cal : Calendar),
      parse_ics_to_json ics_content = Ok cal ->
      map categories (events cal)
      = map block_categories (blocks None (split [NL] ics_content)))
  /\ (forall (pre : list str) (b : str) (body : list str) (e : str)
             (post : list str),
         strip b = u "BEGIN:VEVENT" -> strip e = u "END:VEVENT" ->
         (forall l, In l body -> strip l <> u "BEGIN:VEVENT"
                                 /\ strip l <> u "END:VEVENT") ->
         blocks None (pre ++ b :: body ++ e :: post)
         = blocks None pre ++ body :: blocks None post)
  /\ (forall raw v : str,
         categories_value raw = Some v <-> strip raw = u "CATEGORIES:" ++ v)
  /\ (forall (body1 : list str) (raw v : str) (body2 : list str),
         strip raw = u "CATEGORIES:" ++ v ->
         (forall l, In l body2 -> categories_value l = None) ->
         block_categories (body1 ++ raw :: body2)
         = map strip (split (u ",") v))
  /\ (forall body : list str,
         (forall l, In l body -> categories_value l = None) ->
         block_categories body = [])
  /\ (forall index : str,
         match parse_ics_to_json
                 (ics ["BEGIN:VEVENT"; "SUMMARY:Badge pick-up";
                       "CATEGORIES:Keynote,REGISTR"; " ATION";
                       "END:VEVENT"]) with
         | Ok cal =>
             map categories (events cal) = [[u "Keynote"; u "REGISTR"]]
             /\ map excluded (events cal) = [false]
             /\ length (documents
                          (format_schedule_for_indexing nfkd cal index)) = 1
         | Raise _ => False
         end)
  /\ (forall index : str,
         match parse_ics_to_json
                 (ics ["BEGIN:VEVENT"; "SUMMARY:Badge pick-up";
                       "CATEGORIES:Keynote,REGISTRATION"; "END:VEVENT"]) with
         | Ok cal =>
             map categories (events cal) = [[u "Keynote"; u "REGISTRATION"]]
             /\ map excluded (events cal) = [true]
             /\ documents (format_schedule_for_indexing nfkd cal index) = []
         | Raise _ => False
         end)
  /\ (forall e : Event,
         doc_categories
           (FormatSchedule.metadata (format_event_to_document nfkd e))
         = map (to_ascii nfkd) (categories e))
  /\ (forall e : Event,
         excluded e = true
         <-> exists cat, In cat (categories e)
                         /\ In cat EXCLUDED_CATEGORIES)
  /\ (forall (cal : Calendar) (index : str),
         let docs := documents (format_schedule_for_indexing nfkd cal index) in
         let kept := filter (fun e => negb (excluded e)) (events cal) in
         docs = map (format_event_to_document nfkd) kept
         /\ length docs = length kept
         /\ (forall e, In e kept <-> In e (events cal) /\ excluded e = false)
         /\ (forall d, In d docs
                       <-> exists e, In e (events cal) /\ excluded e = false
                                     /\ d = format_event_to_document nfkd e)).
Proof.
  split; [exact parsed_categories_of_blocks|].
  split; [exact blocks_split|].
  split; [exact categories_value_spec|].
  split; [exact block_categories_last|].
  split; [intros body H; apply (block_categories_none body [] H)|].
  split; [|split; [|split; [|split]]].
  - intros index.
    assert (C : match parse_ics_to_json
                        (ics ["BEGIN:VEVENT"; "SUMMARY:Badge pick-up";
                              "CATEGORIES:Keynote,REGISTR"; " ATION";
                              "END:VEVENT"]) with
                | Ok cal =>
                    map categories (events cal)
                    = [[u "Keynote"; u "REGISTR"]]
                    /\ map excluded (events cal) = [false]
                    /\ length (filter (fun e => negb (excluded e))
                                      (events cal)) = 1
                | Raise _ => False
                end) by (vm_compute; auto).
    destruct (parse_ics_to_json _) as [cal|]; [|exact C].
    rewrite documents_length. exact C.
  - intros index.
    assert (C : match parse_ics_to_json
                        (ics ["BEGIN:VEVENT"; "SUMMARY:Badge pick-up";
                              "CATEGORIES:Keynote,REGISTRATION";
                              "END:VEVENT"]) with
                | Ok cal =>
                    map categories (events cal)
                    = [[u "Keynote"; u "REGISTRATION"]]
                    /\ map excluded (events cal) = [true]
                    /\ filter (fun e => negb (excluded e)) (events cal) = []
                | Raise _ => False
                end) by (vm_compute; auto).
    destruct (parse_ics_to_json _) as [cal|]; [|exact C].
    destruct C as (C1 & C2 & C3). split; [exact C1|]. split; [exact C2|].
    cbn [documents format_schedule_for_indexing]. rewrite C3. reflexivity.
  - reflexivity.
  - apply excluded_spec.
  - intros cal index docs kept.
    assert (K : forall e, In e kept <-> In e (events cal) /\ excluded e = false).
    { intros e. unfold kept. rewrite filter_In, negb_true_iff. tauto. }
    split; [reflexivity|]. split; [apply length_map|]. split; [exact K|].
    intros d. unfold docs. cbn [documents format_schedule_for_indexing].
    fold kept. rewrite in_map_iff. split.
    + intros (e & <- & He). apply K in He. exists e. tauto.
    + intros (e & He & Hx & ->). exists e. split; [reflexivity|].
      apply K; tauto.
Qed.

End PipelineBlocks.


Section SplitFacts.

Import Py.

(** Splitting on one character gives one piece more than there are
    occurrences of it. *)
Lemma split_aux_char_length (c : N) (s cur : str) :
  length (split_aux [c] s 0 cur) = S (count_occ N.eq_dec s c).
Proof.
  revert cur; induction s as [|x s IH]; intros cur; [reflexivity|].
  cbn [split_aux startswith length Nat.sub count_occ].
  rewrite andb_true_r.
  destruct (N.eqb_spec c x) as [->|Hne].
  - destruct (N.eq_dec x x); [|congruence]. cbn [length]. rewrite IH.
    reflexivity.
  - destruct (N.eq_dec x c); [congruence|]. apply IH.
Qed.

Lemma contains_char (c : N) (s : str) : contains [c] s = true <-> In c s.
Proof.
  induction s as [|x s IH]; cbn [contains startswith In].
  - split; [discriminate | tauto].
  - rewrite andb_true_r, orb_true_iff, N.eqb_eq, IH.
    split; intros [H|H]; auto.
Qed.

Lemma split_char_two (c : N) (s : str) :
  (2 <= length (split [c] s))%nat <-> contains [c] s = true.
Proof.
  unfold split. rewrite split_aux_char_length, contains_char.
  rewrite (count_occ_In N.eq_dec). lia.
Qed.

End SplitFacts.

Section SpeakerClaims.

Import Py FormatSchedule.

(** C8: the rules of [parse_speaker_entry], on the trimmed entry [e] and
    its comma-separated, trimmed parts, and the two examples of
    [extract_speakers]. *)
Theorem parse_speaker_entry_rules :
  (forall entry : str,
      let e := strip entry in
      let parts := map strip (split (u ",") e) in
      (e = [] -> parse_speaker_entry entry = None)
      /\ (e <> [] -> contains (u ",") e = false ->
          parse_speaker_entry entry
          = Some {| name := e; title := None; company := None |})
      /\ (forall a b,
             parts = [a; b] ->
             parse_speaker_entry entry
             = Some {| name := a; title := None; company := Some b |})
      /\ (forall first mid pen last,
             parts = first :: mid ++ [pen; last] ->
             member last COMPANY_SUFFIXES = true ->
             parse_speaker_entry entry
             = Some {| name := first;
                       title := match mid with
                                | [] => None
                                | _ :: _ => Some (join (u ", ") mid)
                                end;
                       company := Some (pen ++ u ", " ++ last) |})
      /\ (forall first mid last,
             parts = first :: mid ++ [last] ->
             mid <> [] ->
             member last COMPANY_SUFFIXES = false ->
             parse_speaker_entry entry
             = Some {| name := first;
                       title := Some (join (u ", ") mid);
                       company := Some last |}))
  /\ (forall x, member x COMPANY_SUFFIXES = true
                <-> In x [u "Inc."; u "Inc"; u "LLC"; u "LLC."; u "Ltd";
                          u "Ltd."; u "Corp"; u "Corp."; u "Co."; u "Co";
                          u "LP"; u "LP."; u "LLP"; u "LLP."; u "PLC";
                          u "PLC."])
  /\ extract_speakers (u "KAITO Deep Dive - Jane Doe, Acme, Inc.")
     = [ {| name := u "Jane Doe"; title := None;
            company := Some (u "Acme, Inc.") |} ]
  /\ extract_speakers (u "Talk with no dash") = [].
Proof.
  split; [|split; [|split; vm_compute; reflexivity]];
    [|intros x; apply member_In].
  intros entry e parts.
  assert (Hparts : forall n, length parts = n -> (2 <= n)%nat ->
                             e <> [] /\ contains (u ",") e = true).
  { intros n Hn Hle. unfold parts in Hn. rewrite length_map in Hn.
    assert (Hc : contains (u ",") e = true)
      by (apply (split_char_two 44%N); change [44%N] with (u ","); lia).
    split; [|exact Hc]. intros E. rewrite E in Hc. discriminate. }
  unfold parse_speaker_entry. fold e. fold parts.
  split; [|split; [|split; [|split]]].
  - intros ->. reflexivity.
  - intros Hne Hc. destruct e; [congruence|]. cbn [truthy negb].
    rewrite Hc. reflexivity.
  - intros a b E. destruct (Hparts 2%nat) as [Hne Hc];
      [rewrite E; reflexivity | lia |].
    destruct e; [congruence|]. cbn [truthy negb]. rewrite Hc, E. reflexivity.
  - intros first mid pen last E Hm.
    destruct (Hparts (S (length mid + 2))) as [Hne Hc];
      [rewrite E; cbn [length]; rewrite length_app; reflexivity | lia |].
    destruct e; [congruence|]. cbn [truthy negb]. rewrite Hc, E.
    cbn [negb length]. rewrite length_app. cbn [length].
    replace (S (length mid + 2) =? 2)%nat with false
      by (symmetry; apply Nat.eqb_neq; lia).
    rewrite (app_comm_cons mid [pen; last] first).
    replace (item [] ((first :: mid) ++ [pen; last]) (-1)) with last
      by (change [pen; last] with ([pen] ++ [last]); rewrite app_assoc;
          symmetry; apply item_last).
    rewrite item_penultimate, Hm.
    rewrite <- app_comm_cons, slice_inner2.
    destruct mid as [|m mid]; [reflexivity|].
    replace (3 <? S (length (m :: mid) + 2))%nat with true
      by (symmetry; apply Nat.ltb_lt; cbn [length]; lia).
    reflexivity.
  - intros first mid last E Hmid Hm.
    destruct (Hparts (S (length mid + 1))) as [Hne Hc];
      [rewrite E; cbn [length]; rewrite length_app; reflexivity
      | destruct mid; [congruence | cbn [length]; lia] |].
    destruct e; [congruence|]. cbn [truthy negb]. rewrite Hc, E.
    cbn [negb length]. rewrite length_app. cbn [length].
    replace (S (length mid + 1) =? 2)%nat with false
      by (symmetry; apply Nat.eqb_neq; destruct mid;
          [congruence | cbn [length]; lia]).
    rewrite (app_comm_cons mid [last] first), item_last, Hm.
    rewrite <- app_comm_cons, slice_inner1.
    replace (2 <? S (length mid + 1))%nat with true
      by (symmetry; apply Nat.ltb_lt; destruct mid;
          [congruence | cbn [length]; lia]).
    reflexivity.
Qed.

Lemma parse_speaker_entry_rules_witness :
  let entry := u " Jane Doe, CTO , Acme, Inc." in
  map strip (split (u ",") (strip entry))
  = u "Jane Doe" :: [u "CTO"] ++ [u "Acme"; u "Inc."]
  /\ member (u "Inc.") COMPANY_SUFFIXES = true
  /\ parse_speaker_entry entry
     = Some {| name := u "Jane Doe"; title := Some (u "CTO");
               company := Some (u "Acme, Inc.") |}.
Proof.
  split; [reflexivity|]. split; [reflexivity|].
  apply (proj1 (proj2 (proj2 (proj2
           (proj1 parse_speaker_entry_rules (u " Jane Doe, CTO , Acme, Inc."))))
         ) (u "Jane Doe") [u "CTO"] (u "Acme") (u "Inc."));
    reflexivity.
Defined.

End SpeakerClaims.

(* ================================================================== *)
(** * Locations *)
(* ================================================================== *)

Section LocationFacts.

Import Py FormatSchedule Inv.

Lemma lstrip_app_space (w t : str) :
  forallb isspace w = true -> lstrip (w ++ t) = lstrip t.
Proof.
  induction w as [|c w IH]; simpl; [reflexivity|].
  intros H. apply andb_true_iff in H as [Hc Hw]. rewrite Hc. apply IH, Hw.
Qed.

(** [city_at] is a match of the pattern: a comma, white space, the name. *)
Lemma city_at_spec (s : str) :
  city_at s = true
  <-> exists w r, s = u "," ++ w ++ u "Atlanta" ++ r
                  /\ forallb isspace w = true.
Proof.
  split.
  - destruct s as [|c s]; [discriminate|]. unfold city_at.
    destruct (N.eqb_spec c 44) as [->|Hc].
    + intros H. apply startswith_split in H as [r Hr].
      destruct (lstrip_split s) as (w & E & W).
      exists w, r. split; [|exact W].
      rewrite <- Hr, <- E. reflexivity.
    + intros H. exfalso.
      destruct c as [|p]; [discriminate|].
      do 6 (destruct p as [p|p|]; try discriminate). congruence.
  - intros (w & r & -> & W). change (u ",") with [44%N].
    cbn [app city_at]. rewrite lstrip_app_space by exact W.
    reflexivity.
Qed.

(** [before_city]: the text before the leftmost match. *)
Lemma before_city_split (s : str) :
  exists rest,
    s = before_city s ++ rest
    /\ (rest = [] \/ city_at rest = true)
    /\ forall a b, before_city s = a ++ b -> b <> [] ->
                   city_at (b ++ rest) = false.
Proof.
  induction s as [|c s (rest & E & R & M)].
  - exists []. repeat split; auto.
    intros a b H. symmetry in H. apply app_eq_nil in H as [_ ->]. congruence.
  - cbn [before_city]. destruct (city_at (c :: s)) eqn:Hc.
    + exists (c :: s). repeat split; auto.
      intros a b H. symmetry in H. apply app_eq_nil in H as [_ ->]. congruence.
    + exists rest. split; [cbn [app]; rewrite <- E; reflexivity|].
      split; [exact R|].
      intros [|x a] b H Hb.
      * cbn [app] in H. subst b. cbn [app]. rewrite <- E. exact Hc.
      * cbn [app] in H. inversion H; subst. apply (M a b); auto.
Qed.

(** ** Lower case and ASCII prefixes *)

Lemma lower_char_cases (c : N) :
  (exists x, lower_char c = [x]) \/ lower_char c = [105%N; 775%N].
Proof.
  unfold lower_char.
  destruct ((65 <=? c)%N && (c <=? 90)%N); [left; eauto|].
  destruct (c =? 304)%N; [right; reflexivity|].
  destruct (c =? 8490)%N; left; eauto.
Qed.

Lemma lowers_to_space (c : N) : lowers_to c 32 -> c = 32%N.
Proof.
  unfold lowers_to, lower_char.
  destruct ((65 <=? c)%N && (c <=? 90)%N) eqn:H.
  - apply andb_true_iff in H as [H _]. apply N.leb_le in H.
    intros E. inversion E. lia.
  - destruct (c =? 304)%N; [discriminate|].
    destruct (c =? 8490)%N; [discriminate|].
    intros E. inversion E. reflexivity.
Qed.

Lemma Forall2_lower (p q : str) : Forall2 lowers_to p q -> lower p = q.
Proof.
  induction 1 as [|c x p q H _ IH]; [reflexivity|].
  unfold lower in *. cbn [flat_map]. rewrite H, IH. reflexivity.
Qed.

Lemma lower_app (p r : str) : lower (p ++ r) = lower p ++ lower r.
Proof. apply flat_map_app. Qed.

(** A string whose lower case is [q], free of the combining dot, has the
    characters of [q] one for one. *)
Lemma lower_Forall2 (p q : str) :
  lower p = q -> no_dot q = true -> Forall2 lowers_to p q.
Proof.
  revert q; induction p as [|c p IH]; intros q E Hq.
  - cbn in E. subst q. constructor.
  - unfold lower in E. cbn [flat_map] in E.
    destruct (lower_char_cases c) as [[x Hx]|Hx]; rewrite Hx in E.
    + subst q. cbn [app no_dot forallb] in Hq.
      apply andb_true_iff in Hq as [_ Hq].
      constructor; [exact Hx | apply IH; [reflexivity | exact Hq]].
    + subst q. cbn in Hq. discriminate.
Qed.

(** A prefix test on the lower case finds a prefix of the string itself. *)
Lemma lower_prefix_inv (q part : str) :
  startswith q (lower part) = true ->
  no_dot q = true ->
  last q 0%N <> 105%N ->
  exists p r, part = p ++ r /\ Forall2 lowers_to p q.
Proof.
  revert part; induction q as [|x q IH]; intros part H Hq Hl.
  - exists [], part. split; [reflexivity | constructor].
  - destruct part as [|c part]; [discriminate|].
    cbn [no_dot forallb] in Hq. apply andb_true_iff in Hq as [Hx Hq].
    unfold lower in H. cbn [flat_map] in H.
    destruct (lower_char_cases c) as [[y Hy]|Hy]; rewrite Hy in H.
    + cbn [app startswith] in H. apply andb_true_iff in H as [Hxy H].
      apply N.eqb_eq in Hxy. subst y.
      destruct (IH part H Hq) as (p & r & -> & F).
      { destruct q; [cbn; discriminate | exact Hl]. }
      exists (c :: p), r. split; [reflexivity | constructor; assumption].
    + exfalso. cbn [app startswith] in H.
      apply andb_true_iff in H as [Hxy H]. apply N.eqb_eq in Hxy. subst x.
      destruct q as [|z q]; [apply Hl; reflexivity|].
      cbn [startswith] in H. apply andb_true_iff in H as [Hz _].
      apply N.eqb_eq in Hz. subst z. cbn in Hq. discriminate.
Qed.

Lemma startswith_lower (q p r : str) :
  lower p = q -> startswith q (lower (p ++ r)) = true.
Proof. intros <-. rewrite lower_app. apply startswith_app. Qed.

End LocationFacts.

Section LocationClaims.

Import Py FormatSchedule Inv.

Lemma assign_building (loc : Location) (p r : str) :
  lower p = u "building " ->
  assign_part loc (p ++ r)
  = {| building := Some (strip r); level := level loc; room := room loc |}.
Proof.
  intros H. unfold assign_part. rewrite startswith_lower by exact H.
  rewrite slice_from_app; [reflexivity|].
  apply lower_Forall2 in H; [|reflexivity].
  apply Forall2_length in H. rewrite H. reflexivity.
Qed.

Lemma assign_level (loc : Location) (p r : str) :
  lower p = u "level " ->
  assign_part loc (p ++ r)
  = {| building := building loc; level := Some (strip r); room := room loc |}.
Proof.
  intros H. unfold assign_part.
  replace (startswith (u "building ") (lower (p ++ r))) with false
    by (rewrite lower_app, H; reflexivity).
  rewrite startswith_lower by exact H.
  rewrite slice_from_app; [reflexivity|].
  apply lower_Forall2 in H; [|reflexivity].
  apply Forall2_length in H. rewrite H. reflexivity.
Qed.

Lemma no_prefix (q part : str) :
  no_dot q = true -> last q 0%N <> 105%N ->
  (forall p r, part = p ++ r -> lower p <> q) ->
  startswith q (lower part) = false.
Proof.
  intros Hq Hl H. destruct (startswith q (lower part)) eqn:E; [|reflexivity].
  destruct (lower_prefix_inv _ _ E Hq Hl) as (p & r & Hp & F).
  exfalso. apply (H p r Hp). apply Forall2_lower, F.
Qed.

Lemma assign_room (loc : Location) (part : str) :
  (forall p r, part = p ++ r ->
               lower p <> u "building " /\ lower p <> u "level ") ->
  part <> [] ->
  assign_part loc part
  = {| building := building loc; level := level loc; room := Some part |}.
Proof.
  intros H Hne. unfold assign_part.
  rewrite !no_prefix; try reflexivity; try (cbn; discriminate);
    try (intros p r E; apply (H p r E)).
  destruct part; [congruence | reflexivity].
Qed.

(** After a prefix that ends with a space, a stripped string goes on with
    something that is not white space only. *)
Lemma stripped_after_space (seg p1 r : str) :
  strip seg = p1 ++ [32%N] ++ r -> strip r <> [].
Proof.
  intros E. destruct (exists_last (l := r)) as (r' & z & ->).
  - intros ->. rewrite app_nil_r in E.
    apply strip_last in E. discriminate.
  - replace (p1 ++ [32%N] ++ r' ++ [z]) with ((p1 ++ [32%N] ++ r') ++ [z]) in E
      by (rewrite <- !app_assoc; reflexivity).
    apply strip_last in E.
    apply strip_not_nil with (c := z);
      [apply in_or_app; right; left; reflexivity | exact E].
Qed.

Lemma prefix_remainder (q seg : str) :
  startswith (q ++ [32%N]) (lower (strip seg)) = true ->
  no_dot (q ++ [32%N]) = true ->
  strip (slice_from (strip seg) (Z.of_nat (length (q ++ [32%N])))) <> [].
Proof.
  intros H Hq.
  destruct (lower_prefix_inv _ _ H Hq) as (p & r & E & F).
  { rewrite last_last. discriminate. }
  rewrite E, slice_from_app by (apply Forall2_length in F; rewrite F; reflexivity).
  apply Forall2_app_inv_r in F as (p1 & p2 & _ & F2 & ->).
  inversion F2 as [|c x p2' q' Hc F3]; subst. inversion F3; subst.
  apply lowers_to_space in Hc. subst c.
  rewrite <- app_assoc in E. exact (stripped_after_space _ _ _ E).
Qed.

Lemma assign_part_filled (loc : Location) (seg : str) :
  filled loc -> filled (assign_part loc (strip seg)).
Proof.
  intros (Hb & Hl & Hr). unfold assign_part.
  destruct (startswith (u "building ") (lower (strip seg))) eqn:B.
  - repeat split; cbn; auto. intros E. inversion E as [E'].
    revert E'. apply (prefix_remainder (u "building") seg B). reflexivity.
  - destruct (startswith (u "level ") (lower (strip seg))) eqn:L.
    + repeat split; cbn; auto. intros E. inversion E as [E'].
      revert E'. apply (prefix_remainder (u "level") seg L). reflexivity.
    + destruct (strip seg) eqn:S; repeat split; cbn; auto. discriminate.
Qed.

Lemma fold_assign_filled (segs : list str) (loc : Location) :
  filled loc -> filled (fold_left assign_part (map strip segs) loc).
Proof.
  revert loc; induction segs as [|s segs IH]; intros loc H; [exact H|].
  cbn [map fold_left]. apply IH, assign_part_filled, H.
Qed.

(** C6, as amended: the text from the leftmost match of a comma, any run of
    white space and [Atlanta] onward is dropped; what is left is trimmed,
    split on [|] and each segment trimmed; a segment with a prefix that
    reads [building ] (resp. [level ]) whatever the case sets the building
    (resp. the level) to the trimmed remainder, any other non-empty segment
    sets the room, a later segment overriding an earlier one; the result is
    [None] exactly when no field was set. *)
Theorem parse_location_rules :
  (forall location : str,
      exists pre rest,
        location = pre ++ rest
        /\ (rest = [] \/ city_at rest = true)
        /\ (forall a b, pre = a ++ b -> b <> [] -> city_at (b ++ rest) = false)
        /\ let loc := fold_left assign_part
                        (map strip (split (u "|") (strip pre))) no_location in
           parse_location location
           = match building loc, level loc, room loc with
             | None, None, None => None
             | _, _, _ => Some loc
             end)
  /\ (forall s : str,
         city_at s = true
         <-> exists w r, s = u "," ++ w ++ u "Atlanta" ++ r
                         /\ forallb isspace w = true)
  /\ (forall (loc : Location) (part : str),
         (forall p r, part = p ++ r -> lower p = u "building " ->
            assign_part loc part
            = {| building := Some (strip r); level := level loc;
                 room := room loc |})
         /\ (forall p r, part = p ++ r -> lower p = u "level " ->
               assign_part loc part
               = {| building := building loc; level := Some (strip r);
                    room := room loc |})
         /\ ((forall p r, part = p ++ r ->
                lower p <> u "building " /\ lower p <> u "level ") ->
             part <> [] ->
             assign_part loc part
             = {| building := building loc; level := level loc;
                  room := Some part |})
         /\ (part = [] -> assign_part loc part = loc))
  /\ parse_location (u "Building B | Level 4 | B406b-407, Atlanta, GA, USA")
     = Some {| building := Some (u "B"); level := Some (u "4");
               room := Some (u "B406b-407") |}.
Proof.
  split; [|split; [|split]].
  - intros location.
    destruct (before_city_split location) as (rest & E & R & M).
    exists (before_city location), rest.
    split; [exact E|]. split; [exact R|]. split; [exact M|].
    intros loc. unfold parse_location.
    destruct location as [|c location]; [reflexivity|].
    cbn [truthy negb]. fold loc.
    assert (F : filled loc)
      by (apply fold_assign_filled; repeat split; discriminate).
    destruct F as (Hb & Hl & Hr).
    destruct (building loc) as [[|]|], (level loc) as [[|]|],
             (room loc) as [[|]|];
      first [ now elim Hb | now elim Hl | now elim Hr | reflexivity ].
  - apply city_at_spec.
  - intros loc part. split; [|split; [|split]].
    + intros p r -> H. apply assign_building, H.
    + intros p r -> H. apply assign_level, H.
    + apply assign_room.
    + intros ->. reflexivity.
  - vm_compute. reflexivity.
Qed.

Lemma parse_location_rules_witness :
  let part := u "BUILDING  C" in
  part = u "BUILDING " ++ u " C"
  /\ lower (u "BUILDING ") = u "building "
  /\ assign_part no_location part
     = {| building := Some (u "C"); level := None; room := None |}.
Proof.
  split; [reflexivity|]. split; [reflexivity|].
  apply (proj1 (proj1 (proj2 (proj2 parse_location_rules))
                      no_location (u "BUILDING  C"))
               (u "BUILDING ") (u " C"));
    reflexivity.
Defined.

(** C6 as stated fails: with the venue-city token read as the literal text
    [, Atlanta], the location [Hall,Atlanta] has no token and its room would
    be the whole string; the code matches [,\s*Atlanta] and gives the room
    [Hall]. *)
Lemma parse_location_literal_token_differs :
  contains (u ", Atlanta") (u "Hall,Atlanta") = false
  /\ Spec.parse_location_literal (u "Hall,Atlanta")
     = Some {| building := None; level := None;
               room := Some (u "Hall,Atlanta") |}
  /\ parse_location (u "Hall,Atlanta")
     = Some {| building := None; level := None; room := Some (u "Hall") |}
  /\ parse_location (u "Hall,Atlanta")
     <> Spec.parse_location_literal (u "Hall,Atlanta").
Proof.
  split; [reflexivity|]. split; [reflexivity|]. split; [reflexivity|].
  vm_compute. discriminate.
Qed.

End LocationClaims.

(* The statements below name every argument. *)
Unset Implicit Arguments.

(* ================================================================== *)
(** * Further lemmas on strings *)
(* ================================================================== *)

Section MoreStringFacts.

Import Py Obs.

Lemma lstrip_keep (s : str) c r : s = c :: r -> isspace c = false -> lstrip s = s.
Proof. intros -> H. cbn [lstrip]. rewrite H. reflexivity. Qed.

Lemma lstrip_app_keep (s t : str) :
  lstrip s <> [] -> lstrip (s ++ t) = lstrip s ++ t.
Proof.
  induction s as [|c s IH]; cbn [lstrip app]; [congruence|].
  destruct (isspace c); [exact IH | reflexivity].
Qed.

Lemma lstrip_blank_app (w t : str) : blank w -> lstrip (w ++ t) = lstrip t.
Proof.
  unfold blank. induction w as [|c w IH]; cbn [forallb app lstrip];
    [reflexivity|].
  intros H. apply andb_true_iff in H as [Hc Hw]. rewrite Hc. apply IH, Hw.
Qed.

Lemma rstrip_app_blank (s w : str) : blank w -> rstrip (s ++ w) = rstrip s.
Proof.
  intros H. unfold rstrip. rewrite rev_app_distr.
  rewrite lstrip_blank_app; [reflexivity|].
  unfold blank. rewrite forallb_rev. exact H.
Qed.

Lemma rstrip_keep (s : str) r c :
  s = r ++ [c] -> isspace c = false -> rstrip s = s.
Proof.
  intros -> H. unfold rstrip. rewrite rev_app_distr. cbn [rev app lstrip].
  rewrite H. cbn [rev]. rewrite rev_involutive. reflexivity.
Qed.

(** White space around a string does not change what [strip] gives. *)
Lemma strip_pad (w1 s w2 : str) :
  blank w1 -> blank w2 -> strip (w1 ++ s ++ w2) = strip s.
Proof.
  intros H1 H2. unfold strip. rewrite lstrip_blank_app by exact H1.
  destruct (lstrip s) as [|c r] eqn:E.
  - apply lstrip_nil in E. rewrite lstrip_blank_app by exact E.
    replace (lstrip w2) with (@nil N) by (symmetry; apply lstrip_nil, H2).
    reflexivity.
  - rewrite lstrip_app_keep by (rewrite E; discriminate).
    rewrite E. apply rstrip_app_blank, H2.
Qed.

Lemma strip_blank (w : str) : blank w -> strip w = [].
Proof. intros H. apply strip_nil, H. Qed.

Lemma strip_idempotent (s : str) : strip (strip s) = strip s.
Proof.
  destruct (strip s) as [|c r] eqn:E; [reflexivity|].
  rewrite <- E. unfold strip at 1.
  rewrite (lstrip_keep (strip s) c r E) by (eapply strip_head; exact E).
  destruct (@exists_last _ (strip s)) as (r' & z & E'); [rewrite E; discriminate|].
  apply (rstrip_keep (strip s) r' z E'). eapply strip_last; exact E'.
Qed.

(** [strip] keeps a contiguous part of the string. *)
Lemma strip_middle (s : str) :
  exists w1 w2, s = w1 ++ strip s ++ w2 /\ blank w1 /\ blank w2.
Proof.
  destruct (lstrip_split s) as (w1 & E1 & B1).
  destruct (rstrip_split (lstrip s)) as (w2 & E2 & B2).
  exists w1, w2. split; [|split; assumption].
  unfold strip. rewrite <- E2. exact E1.
Qed.

Lemma strip_incl (s : str) x : In x (strip s) -> In x s.
Proof.
  destruct (strip_middle s) as (w1 & w2 & E & _). intros H.
  rewrite E. apply in_or_app. right. apply in_or_app. left. exact H.
Qed.

(** ** Occurrences *)

Lemma startswith_app_r (sep t r : str) :
  startswith sep t = true -> startswith sep (t ++ r) = true.
Proof.
  revert t; induction sep as [|x sep IH]; intros t H; [reflexivity|].
  destruct t as [|y t]; [discriminate|]. cbn [startswith app] in *.
  apply andb_true_iff in H as [H1 H2]. rewrite H1. cbn [andb]. apply IH, H2.
Qed.

Lemma contains_app_r (sep t r : str) :
  contains sep t = true -> contains sep (t ++ r) = true.
Proof.
  induction t as [|y t IH]; cbn [contains app]; intros H.
  - rewrite orb_false_r in H. destruct sep; [|discriminate].
    destruct r; reflexivity.
  - apply orb_true_iff in H as [H|H].
    + change (y :: t ++ r) with ((y :: t) ++ r).
      rewrite (startswith_app_r _ _ r H). reflexivity.
    + rewrite (IH H). apply orb_true_r.
Qed.

Lemma contains_app_l (sep w t : str) :
  contains sep t = true -> contains sep (w ++ t) = true.
Proof.
  intros H. induction w as [|y w IH]; [exact H|].
  cbn [app contains]. rewrite IH. apply orb_true_r.
Qed.

Lemma contains_strip (sep s : str) :
  contains sep (strip s) = true -> contains sep s = true.
Proof.
  destruct (strip_middle s) as (w1 & w2 & E & _). intros H.
  rewrite E. apply contains_app_l, contains_app_r, H.
Qed.

Lemma no_start_contains (sep h s : str) :
  sep <> [] -> no_start sep h s -> contains sep h = false.
Proof.
  intros Hsep. induction h as [|c h IH]; intros H.
  - destruct sep; [congruence | reflexivity].
  - cbn [contains].
    destruct (startswith sep (c :: h)) eqn:E.
    + apply (startswith_app_r _ _ s) in E.
      rewrite (H [] (c :: h) eq_refl) in E by discriminate. discriminate.
    + cbn [orb]. apply IH. intros a b Hab Hb.
      apply (H (c :: a) b); [rewrite Hab; reflexivity | exact Hb].
Qed.

Lemma no_start_snoc (sep h s : str) c :
  no_start sep h (c :: s) -> startswith sep (c :: s) = false ->
  no_start sep (h ++ [c]) s.
Proof.
  intros H Hc a b Hab Hb.
  destruct (@exists_last _ b Hb) as (b' & z & ->).
  rewrite app_assoc in Hab. apply app_inj_tail in Hab as [-> ->].
  rewrite <- app_assoc. cbn [app].
  destruct b' as [|y b']; [exact Hc|].
  apply (H a (y :: b') eq_refl). discriminate.
Qed.

(** The first piece of a split holds no occurrence of the separator. *)
Lemma split_aux_head (sep s cur : str) :
  no_start sep (rev cur) s ->
  exists h rest, split_aux sep s 0 cur = h :: rest /\ exists s', no_start sep h s'.
Proof.
  revert cur; induction s as [|c s IH]; intros cur H.
  - exists (rev cur), []. split; [reflexivity|]. exists []. exact H.
  - cbn [split_aux]. destruct (startswith sep (c :: s)) eqn:E.
    + exists (rev cur), (split_aux sep s (length sep - 1) []).
      split; [reflexivity|]. exists (c :: s). exact H.
    + apply (IH (c :: cur)). cbn [rev]. apply no_start_snoc; assumption.
Qed.

Lemma split_head_clean (sep s : str) :
  sep <> [] -> contains sep (item [] (split sep s) 0) = false.
Proof.
  intros Hsep. destruct (split_aux_head sep s []) as (h & rest & E & s' & H).
  - intros a b Hab Hb. symmetry in Hab. apply app_eq_nil in Hab as [_ ->].
    congruence.
  - unfold split. rewrite E. cbn. exact (no_start_contains _ _ _ Hsep H).
Qed.

(** Nothing to split or to replace where the separator does not occur. *)
Lemma split_aux_absent (sep s cur : str) :
  contains sep s = false -> split_aux sep s 0 cur = [rev cur ++ s].
Proof.
  revert cur; induction s as [|c s IH]; intros cur H.
  - cbn. rewrite app_nil_r. reflexivity.
  - cbn [contains] in H. apply orb_false_iff in H as [H1 H2].
    cbn [split_aux]. rewrite H1, IH by exact H2. cbn [rev].
    rewrite <- app_assoc. reflexivity.
Qed.

Lemma split_absent (sep s : str) :
  contains sep s = false -> split sep s = [s].
Proof. intros H. unfold split. rewrite split_aux_absent by exact H. reflexivity. Qed.

Lemma replace_absent (c : N) (old new s : str) :
  ~ In c s -> replace (c :: old) new s = s.
Proof.
  unfold replace. induction s as [|x s IH]; intros H; [reflexivity|].
  cbn [replace_aux startswith].
  destruct (N.eqb_spec c x) as [->|_]; [exfalso; apply H; left; reflexivity|].
  cbn [andb]. rewrite IH; [reflexivity|].
  intros Hin. apply H. right. exact Hin.
Qed.

End MoreStringFacts.

(* ================================================================== *)
(** * Further properties of the tokenizer *)
(* ================================================================== *)

Section TokenizerMore.

Import Py PyDatetime ParseSchedule Obs.

Ltac cases :=
  match goal with
  | |- context [if ?c then _ else _] => destruct c eqn:?
  | |- context [match ?x with Some _ => _ | None => _ end] => destruct x eqn:?
  | |- context [match ?x with Ok _ => _ | Raise _ => _ end] => destruct x eqn:?
  end.

(** ** Exceptions *)

Lemma astimezone_raises (dt : datetime) (e : exn) :
  astimezone_new_york dt = Raise e -> e = OverflowError.
Proof.
  unfold astimezone_new_york. intros H.
  set (ts := timestamp dt) in H.
  set (off := new_york_utcoffset ts (year dt)) in H.
  set (loc := (ts + off + 719162 * 86400)%Z) in H.
  set (ord := (loc / 86400 + 1)%Z) in H.
  set (sec := (loc mod 86400)%Z) in H.
  clearbody ord sec off.
  destruct ((ord <? 1)%Z || (_MAXORDINAL <? ord)%Z); [congruence|].
  destruct (_ord2ymd ord) as [[y m] d]. congruence.
Qed.

Lemma strptime_raises (s : str) (e : exn) :
  strptime s = Raise e -> e = ValueError.
Proof.
  unfold strptime.
  destruct (match_groups ICS_FORMAT s) as [[ms rest]|]; [|congruence].
  destruct (truthy rest); [congruence|].
  do 9 (destruct ms as [|? ms]; try congruence).
  intros H.
  match type of H with
  | context [if ?c then _ else _] => destruct c
  end; congruence.
Qed.

(** X1: [parse_ics_datetime] raises nothing but [OverflowError], and only
    when [strptime] accepted the string and the conversion overflowed. *)
Lemma parse_ics_datetime_raises (s : str) (e : exn) :
  parse_ics_datetime s = Raise e ->
  e = OverflowError
  /\ exists dt, strptime s = Ok dt
                /\ astimezone_new_york dt = Raise OverflowError.
Proof.
  unfold parse_ics_datetime. destruct (negb (truthy s)); [discriminate|].
  destruct (strptime s) as [dt|e0] eqn:P; cbn [bind].
  - destruct (astimezone_new_york dt) as [[d o]|e1] eqn:A; cbn [bind].
    + discriminate.
    + pose proof (astimezone_raises _ _ A) as ->. intros [= <-].
      split; [reflexivity|]. exists dt. split; [reflexivity | exact A].
  - rewrite (strptime_raises _ _ P). discriminate.
Qed.

Lemma field_line (line name : str) :
  contains (u ":") line = true ->
  str_eqb (item [] (split1 (u ":") line) 0) name = true ->
  line = name ++ u ":" ++ item [] (split1 (u ":") line) 1.
Proof.
  intros Hc Hf. apply str_eqb_eq in Hf. rewrite <- Hf. apply split1_colon, Hc.
Qed.

(** A line makes the tokenizer raise only inside an event, and only in
    two ways: a [SEQUENCE] value that [int] rejects ([ValueError]) or a
    [DTSTAMP], [DTSTART] or [DTEND] value whose conversion overflows
    ([OverflowError]). *)
Theorem process_line_raises (st : state) (raw : str) (e : exn) :
  process_line st raw = Raise e ->
  exists ev v,
    current_event st = Some ev
    /\ ((strip raw = u "SEQUENCE:" ++ v /\ int_of_str v = None
         /\ e = ValueError)
        \/ ((strip raw = u "DTSTAMP:" ++ v \/ strip raw = u "DTSTART:" ++ v
             \/ strip raw = u "DTEND:" ++ v)
            /\ parse_ics_datetime v = Raise OverflowError
            /\ e = OverflowError)).
Proof.
  unfold process_line. rewrite strip_no_leading_space.
  unfold parse_field, bind.
  repeat cases; intros H; try discriminate H; inversion H; subst; clear H;
    eexists; eexists; (split; [reflexivity|]);
    match goal with
    | Hc : contains _ _ = true, Hf : str_eqb _ (u "SEQUENCE") = true |- _ =>
        left; split; [exact (field_line _ _ Hc Hf)|]; split; [assumption|reflexivity]
    | Hc : contains _ _ = true, Hf : str_eqb _ (u "DTSTAMP") = true,
      Hp : parse_ics_datetime _ = Raise _ |- _ =>
        destruct (parse_ics_datetime_raises _ _ Hp) as [-> _];
        right; split; [left; exact (field_line _ _ Hc Hf)|];
        split; [exact Hp | reflexivity]
    | Hc : contains _ _ = true, Hf : str_eqb _ (u "DTSTART") = true,
      Hp : parse_ics_datetime _ = Raise _ |- _ =>
        destruct (parse_ics_datetime_raises _ _ Hp) as [-> _];
        right; split; [right; left; exact (field_line _ _ Hc Hf)|];
        split; [exact Hp | reflexivity]
    | Hc : contains _ _ = true, Hf : str_eqb _ (u "DTEND") = true,
      Hp : parse_ics_datetime _ = Raise _ |- _ =>
        destruct (parse_ics_datetime_raises _ _ Hp) as [-> _];
        right; split; [right; right; exact (field_line _ _ Hc Hf)|];
        split; [exact Hp | reflexivity]
    end.
Qed.

Lemma run_raises (st : state) (ls : list str) (e : exn) :
  run st ls = Raise e ->
  exists st1 raw, In raw ls /\ process_line st1 raw = Raise e.
Proof.
  revert st; induction ls as [|l ls IH]; intros st H; [discriminate|].
  cbn [run] in H. destruct (process_line st l) as [st1|e1] eqn:E; cbn [bind] in H.
  - destruct (IH _ H) as (st2 & raw & Hin & Hr).
    exists st2, raw. split; [right; exact Hin | exact Hr].
  - inversion H; subst. exists st, l. split; [left; reflexivity | exact E].
Qed.

(** X2: [parse_ics_to_json] raises only [ValueError], on a [SEQUENCE] line
    of the input whose value is no integer, or [OverflowError], on a
    date-time line whose conversion overflows. *)
Theorem parse_ics_to_json_raises (ics_content : str) (e : exn) :
  parse_ics_to_json ics_content = Raise e ->
  exists raw v,
    In raw (split [NL] ics_content)
    /\ ((strip raw = u "SEQUENCE:" ++ v /\ int_of_str v = None
         /\ e = ValueError)
        \/ ((strip raw = u "DTSTAMP:" ++ v \/ strip raw = u "DTSTART:" ++ v
             \/ strip raw = u "DTEND:" ++ v)
            /\ parse_ics_datetime v = Raise OverflowError
            /\ e = OverflowError)).
Proof.
  unfold parse_ics_to_json.
  destruct (run initial (split [NL] ics_content)) as [st|e1] eqn:E;
    cbn [bind]; [discriminate|].
  intros [= <-]. destruct (run_raises _ _ _ E) as (st1 & raw & Hin & Hr).
  destruct (process_line_raises _ _ _ Hr) as (ev & v & _ & Hv).
  exists raw, v. split; [exact Hin | exact Hv].
Qed.

End TokenizerMore.

Section TokenizerInvariants.

Import Py PyDatetime ParseSchedule Obs.

Ltac cases :=
  match goal with
  | |- context [if ?c then _ else _] => destruct c eqn:?
  | |- context [match ?x with Some _ => _ | None => _ end] => destruct x eqn:?
  | |- context [match ?x with Ok _ => _ | Raise _ => _ end] => destruct x eqn:?
  end.

(** ** Events and block markers *)

Lemma process_line_counts (st st' : state) (raw : str) :
  process_line st raw = Ok st' ->
  length (events (calendar st'))
  <= length (events (calendar st)) + (if is_end raw then 1 else 0)
  /\ length (events (calendar st')) + open_events st'
     <= length (events (calendar st)) + open_events st
        + (if is_begin raw then 1 else 0).
Proof.
  intros H. unfold process_line in H. rewrite strip_no_leading_space in H.
  unfold parse_field, bind in H.
  repeat match type of H with
         | context [if ?c then _ else _] => destruct c eqn:?
         | context [match ?x with Some _ => _ | None => _ end] =>
             destruct x eqn:?
         | context [match ?x with Ok _ => _ | Raise _ => _ end] =>
             destruct x eqn:?
         end;
    inversion H; subst; clear H;
    unfold is_begin, is_end, open_events;
    cbn [events calendar current_event with_metadata with_event];
    rewrite ?length_app; cbn [length];
    repeat match goal with
           | Hx : ?x = _ |- context [?x] => rewrite Hx
           end;
    repeat match goal with
           | |- context [if ?c then _ else _] => destruct c
           | |- context [match ?x with Some _ => _ | None => _ end] =>
               destruct x
           end;
    lia.
Qed.

Lemma run_counts (ls : list str) (st st' : state) :
  run st ls = Ok st' ->
  length (events (calendar st'))
  <= length (events (calendar st)) + length (filter is_end ls)
  /\ length (events (calendar st')) + open_events st'
     <= length (events (calendar st)) + open_events st
        + length (filter is_begin ls).
Proof.
  revert st; induction ls as [|l ls IH]; intros st H.
  - inversion H; subst. cbn. lia.
  - cbn [run] in H. destruct (process_line st l) as [st1|] eqn:E;
      [|discriminate].
    cbn [bind] in H. apply IH in H. apply process_line_counts in E.
    cbn [filter]. destruct (is_end l), (is_begin l); cbn [length]; lia.
Qed.

(** X3: a parsed calendar has at most as many events as the input has
    [BEGIN:VEVENT] lines, and at most as many as it has [END:VEVENT]
    lines. *)
Theorem parsed_events_bounded (ics_content : str) (cal : Calendar) :
  parse_ics_to_json ics_content = Ok cal ->
  length (events cal) <= length (filter is_begin (split [NL] ics_content))
  /\ length (events cal) <= length (filter is_end (split [NL] ics_content)).
Proof.
  unfold parse_ics_to_json.
  destruct (run initial (split [NL] ics_content)) as [st|] eqn:E;
    [|discriminate].
  intros H. inversion H; subst. apply run_counts in E.
  cbn [initial events calendar length open_events current_event] in E.
  unfold open_events in E. destruct (current_event st); lia.
Qed.

(** ** The text fields of the parsed events *)

Lemma unescape_trimmed (text : str) :
  strip (unescape_ics_text text) = unescape_ics_text text.
Proof.
  unfold unescape_ics_text. destruct (negb (truthy text)); [reflexivity|].
  apply strip_idempotent.
Qed.

Lemma finish_event_trimmed (e : Event) : trimmed_event (finish_event e).
Proof. repeat split; apply unescape_trimmed. Qed.

(** X4: the tokenizer only ever appends to the events list: what a run adds
    comes after the events that were there, which stay as they were, and
    every event added has its summary, description and location trimmed. *)
Theorem run_appends_trimmed (ls : list str) (st st' : state) :
  run st ls = Ok st' ->
  exists added,
    events (calendar st') = events (calendar st) ++ added
    /\ Forall trimmed_event added.
Proof.
  revert st; induction ls as [|l ls IH]; intros st H.
  - inversion H; subst. exists []. rewrite app_nil_r. split; [reflexivity|].
    constructor.
  - cbn [run] in H. destruct (process_line st l) as [st1|] eqn:E;
      [|discriminate].
    cbn [bind] in H. destruct (IH _ H) as (added & Ha & Ft).
    destruct (@events_grow_at_end st st1 l E) as [E1|(_ & e & _ & E1)].
    + exists added. rewrite Ha, E1. split; [reflexivity | exact Ft].
    + exists (finish_event e :: added). rewrite Ha, E1, <- app_assoc.
      split; [reflexivity|]. constructor; [apply finish_event_trimmed | exact Ft].
Qed.

(** X5: in a parsed calendar the summary, the description and the location
    of every event carry no white space at either end. *)
Theorem parsed_events_trimmed (ics_content : str) (cal : Calendar) :
  parse_ics_to_json ics_content = Ok cal ->
  Forall trimmed_event (events cal).
Proof.
  unfold parse_ics_to_json.
  destruct (run initial (split [NL] ics_content)) as [st|] eqn:E;
    [|discriminate].
  intros H. inversion H; subst.
  destruct (run_appends_trimmed _ _ _ E) as (added & Ha & Ft).
  rewrite Ha. exact Ft.
Qed.

(** ** White space around a line *)

Lemma process_line_strip (st : state) (raw : str) :
  process_line st (strip raw) = process_line st raw.
Proof. unfold process_line. rewrite strip_idempotent. reflexivity. Qed.

Lemma process_line_blank (st : state) (raw : str) :
  truthy (strip raw) = false -> process_line st raw = Ok st.
Proof. intros H. unfold process_line. rewrite H. reflexivity. Qed.

(** X6: white space at either end of a line (indentation, the carriage
    return of a CRLF ending) does not change what the line does, a line of
    white space does nothing, and so a run is determined by the stripped
    lines that are not empty. *)
Theorem lines_read_stripped :
  (forall (st : state) (w1 raw w2 : str),
      blank w1 -> blank w2 ->
      process_line st (w1 ++ raw ++ w2) = process_line st raw)
  /\ (forall (st : state) (w : str), blank w -> process_line st w = Ok st)
  /\ (forall (st : state) (ls : list str),
         run st ls
         = run st (map strip (filter (fun l => truthy (strip l)) ls))).
Proof.
  split; [|split].
  - intros st w1 raw w2 H1 H2. unfold process_line.
    rewrite strip_pad by assumption. reflexivity.
  - intros st w H. apply process_line_blank. rewrite strip_blank by exact H.
    reflexivity.
  - intros st ls. revert st. induction ls as [|l ls IH]; intros st;
      [reflexivity|].
    cbn [filter run]. destruct (truthy (strip l)) eqn:T.
    + cbn [map run]. rewrite process_line_strip.
      destruct (process_line st l); cbn [bind]; [apply IH | reflexivity].
    + rewrite process_line_blank by exact T. cbn [bind]. apply IH.
Qed.

Lemma lines_read_stripped_witness :
  blank [9%N; 32%N] /\ blank [13%N]
  /\ process_line initial ([9%N; 32%N] ++ u "BEGIN:VEVENT" ++ [13%N])
     = process_line initial (u "BEGIN:VEVENT").
Proof.
  split; [reflexivity|]. split; [reflexivity|].
  apply (proj1 lines_read_stripped); reflexivity.
Defined.

(** ** Outside an event *)

(** X7: while no event is open, no line raises and no line adds an event;
    unless it is [BEGIN:VEVENT], the line leaves the tokenizer outside an
    event, with the same current field: field lines such as [UID:...] and a
    stray [END:VEVENT] are passed over. *)
Theorem idle_lines (st : state) (raw : str) :
  current_event st = None ->
  exists st',
    process_line st raw = Ok st'
    /\ events (calendar st') = events (calendar st)
    /\ (is_begin raw = true ->
        current_event st' = Some new_event /\ current_field st' = None
        /\ metadata (calendar st') = metadata (calendar st))
    /\ (is_begin raw = false ->
        current_event st' = None /\ current_field st' = current_field st).
Proof.
  intros Hc. unfold process_line, is_begin. rewrite Hc.
  repeat cases; eexists; (split; [reflexivity|]);
    cbn [events calendar current_event current_field with_metadata metadata];
    (split; [reflexivity|]); split; intros Hb;
    try discriminate Hb; try (split; [assumption || reflexivity | reflexivity]);
    try (repeat split; reflexivity);
    try (exfalso; destruct (strip raw); discriminate);
    try (exfalso; revert Hb;
         match goal with
         | H : startswith ?p ?l = true |- _ =>
             apply startswith_split in H as [r ->]; cbn; discriminate
         end).
Qed.

Lemma idle_lines_witness :
  current_event initial = None
  /\ exists st',
      process_line initial (u "UID:42") = Ok st'
      /\ events (calendar st') = events (calendar initial)
      /\ (is_begin (u "UID:42") = true ->
          current_event st' = Some new_event /\ current_field st' = None
          /\ metadata (calendar st') = metadata (calendar initial))
      /\ (is_begin (u "UID:42") = false ->
          current_event st' = None
          /\ current_field st' = current_field initial).
Proof.
  split; [reflexivity|]. apply idle_lines. reflexivity.
Defined.

(** ** Unescaping *)

Lemma replace_prefix (c : N) (old new x t : str) :
  ~ In c x ->
  replace (c :: old) new (x ++ t) = x ++ replace (c :: old) new t.
Proof.
  unfold replace. induction x as [|y x IH]; intros H; [reflexivity|].
  cbn [app replace_aux startswith].
  destruct (N.eqb_spec c y) as [->|_]; [exfalso; apply H; left; reflexivity|].
  cbn [andb]. rewrite IH; [reflexivity|].
  intros Hin. apply H. right. exact Hin.
Qed.

(** X8: on a text without backslash, [unescape_ics_text] only trims. *)
Theorem unescape_plain (text : str) :
  ~ In 92%N text -> unescape_ics_text text = strip text.
Proof.
  intros H. unfold unescape_ics_text. destruct text as [|c text];
    [reflexivity|].
  cbn [truthy negb].
  change (u "\,") with [92%N; 44%N]. change (u "\;") with [92%N; 59%N].
  change (u "\n") with [92%N; 110%N]. change (u "\\") with [92%N; 92%N].
  rewrite (replace_absent 92%N [44%N] (u ",") _ H).
  rewrite (replace_absent 92%N [59%N] (u ";") _ H).
  rewrite (replace_absent 92%N [110%N] [NL] _ H).
  rewrite (replace_absent 92%N [92%N] (u "\") _ H).
  reflexivity.
Qed.

Lemma unescape_plain_witness :
  ~ In 92%N (u "  Room B, Hall 2 ")
  /\ unescape_ics_text (u "  Room B, Hall 2 ") = strip (u "  Room B, Hall 2 ").
Proof.
  split.
  - cbn. intuition discriminate.
  - apply unescape_plain. cbn. intuition discriminate.
Defined.

(** X9: the four replacements run one after the other, each over the whole
    text.  An escaped comma or semicolon loses its backslash; but in an
    escaped backslash followed by [n], the second backslash and the [n] are
    taken for an escaped line break, and a backslash and a line break
    result. *)
Theorem unescape_sequential (x y : str) :
  ~ In 92%N x -> ~ In 92%N y ->
  unescape_ics_text (x ++ u "\," ++ y) = strip (x ++ u "," ++ y)
  /\ unescape_ics_text (x ++ u "\;" ++ y) = strip (x ++ u ";" ++ y)
  /\ unescape_ics_text (x ++ u "\n" ++ y) = strip (x ++ [NL] ++ y)
  /\ unescape_ics_text (x ++ u "\\n" ++ y) = strip (x ++ u "\" ++ [NL] ++ y).
Proof.
  intros Hx Hy.
  assert (T : forall c t, truthy (x ++ c :: t) = true)
    by (intros c t; destruct x; reflexivity).
  assert (R : forall old new (t : str),
             replace_aux (92%N :: old) new (x ++ t) 0
             = x ++ replace_aux (92%N :: old) new t 0)
    by (intros; apply (replace_prefix 92%N old new x t Hx)).
  assert (A : forall old new, replace_aux (92%N :: old) new y 0 = y)
    by (intros; apply (replace_absent 92%N old new y Hy)).
  unfold unescape_ics_text, replace, NL.
  change (u "\,") with [92%N; 44%N]. change (u "\;") with [92%N; 59%N].
  change (u "\n") with [92%N; 110%N]. change (u "\\") with [92%N; 92%N].
  change (u "\\n") with [92%N; 92%N; 110%N].
  change (u ",") with [44%N]. change (u ";") with [59%N].
  change (u "\") with [92%N].
  cbn [app]. rewrite !T. cbn [negb].
  repeat split;
    repeat (rewrite R;
            cbn [app replace_aux startswith N.eqb Pos.eqb andb length Nat.sub];
            rewrite ?A);
    reflexivity.
Qed.

Lemma unescape_sequential_witness :
  ~ In 92%N (u "C:") /\ ~ In 92%N (u "ew")
  /\ unescape_ics_text (u "C:" ++ u "\\n" ++ u "ew")
     = strip (u "C:" ++ u "\" ++ [NL] ++ u "ew").
Proof.
  assert (H1 : ~ In 92%N (u "C:")) by (cbn; intuition discriminate).
  assert (H2 : ~ In 92%N (u "ew")) by (cbn; intuition discriminate).
  split; [exact H1|]. split; [exact H2|].
  apply (unescape_sequential (u "C:") (u "ew") H1 H2).
Defined.

End TokenizerInvariants.

(* ================================================================== *)
(** * Further properties of the speaker extractor *)
(* ================================================================== *)

Section CharacterFacts.

Import Py Obs.

Variable P : N -> Prop.

Lemma all_chars_app (a b : str) :
  all_chars P a -> all_chars P b -> all_chars P (a ++ b).
Proof. intros Ha Hb x Hx. apply in_app_or in Hx as [H|H]; auto. Qed.

Lemma all_chars_nil : all_chars P [].
Proof. intros x []. Qed.

Lemma all_chars_strip (s : str) : all_chars P s -> all_chars P (strip s).
Proof. intros H x Hx. apply H, strip_incl, Hx. Qed.

Lemma all_chars_rev (s : str) : all_chars P s -> all_chars P (rev s).
Proof. intros H x Hx. apply H, in_rev, Hx. Qed.

Lemma split_aux_chars (sep s cur : str) (k : nat) :
  all_chars P s -> all_chars P cur ->
  Forall (all_chars P) (split_aux sep s k cur).
Proof.
  revert k cur; induction s as [|c s IH]; intros k cur Hs Hc.
  - constructor; [apply all_chars_rev, Hc | constructor].
  - assert (Hs' : all_chars P s) by (intros x Hx; apply Hs; right; exact Hx).
    cbn [split_aux]. destruct k as [|k]; [|apply IH; assumption].
    destruct (startswith sep (c :: s)).
    + constructor; [apply all_chars_rev, Hc|].
      apply IH; [exact Hs' | apply all_chars_nil].
    + apply IH; [exact Hs'|]. intros x [<-|Hx]; [apply Hs; left; reflexivity|].
      apply Hc, Hx.
Qed.

Lemma split_chars (sep s : str) :
  all_chars P s -> Forall (all_chars P) (split sep s).
Proof. intros H. apply split_aux_chars; [exact H | apply all_chars_nil]. Qed.

Lemma split1_aux_chars (sep s cur : str) :
  all_chars P s -> all_chars P cur ->
  Forall (all_chars P) (split1_aux sep s cur).
Proof.
  revert cur; induction s as [|c s IH]; intros cur Hs Hc.
  - constructor; [apply all_chars_rev, Hc | constructor].
  - cbn [split1_aux]. destruct (startswith sep (c :: s)).
    + constructor; [apply all_chars_rev, Hc|]. constructor; [|constructor].
      intros x Hx. apply Hs.
      rewrite <- (firstn_skipn (length sep) (c :: s)).
      apply in_or_app. right. exact Hx.
    + apply IH.
      * intros x Hx. apply Hs. right. exact Hx.
      * intros x [<-|Hx]; [apply Hs; left; reflexivity | apply Hc, Hx].
Qed.

Lemma split1_chars (sep s : str) :
  all_chars P s -> Forall (all_chars P) (split1 sep s).
Proof. intros H. apply split1_aux_chars; [exact H | apply all_chars_nil]. Qed.

Lemma map_strip_chars (l : list str) :
  Forall (all_chars P) l -> Forall (all_chars P) (map strip l).
Proof.
  induction 1; cbn [map]; constructor; [apply all_chars_strip|]; assumption.
Qed.

Lemma nth_chars (l : list str) (n : nat) :
  Forall (all_chars P) l -> all_chars P (nth n l []).
Proof.
  intros H. revert n. induction H as [|x l Hx Hl IH]; intros [|n]; cbn [nth];
    try apply all_chars_nil; [exact Hx | apply IH].
Qed.

Lemma item_chars (l : list str) (i : Z) :
  Forall (all_chars P) l -> all_chars P (item [] l i).
Proof.
  intros H. unfold item. cbv zeta.
  match goal with |- context [if ?c then [] else _] => destruct c end;
    [apply all_chars_nil | apply nth_chars, H].
Qed.

Lemma In_firstn (A : Type) (n : nat) (l : list A) (x : A) :
  In x (firstn n l) -> In x l.
Proof.
  intros H. rewrite <- (firstn_skipn n l). apply in_or_app. left. exact H.
Qed.

Lemma In_skipn (A : Type) (n : nat) (l : list A) (x : A) :
  In x (skipn n l) -> In x l.
Proof.
  intros H. rewrite <- (firstn_skipn n l). apply in_or_app. right. exact H.
Qed.

Lemma slice_chars (l : list str) (i j : Z) :
  Forall (all_chars P) l -> Forall (all_chars P) (slice l i j).
Proof.
  intros H. apply Forall_forall. intros x Hx. unfold slice in Hx.
  apply In_firstn, In_skipn in Hx.
  exact (proj1 (Forall_forall _ _) H _ Hx).
Qed.

Lemma slice_to_chars (l : list str) (j : Z) :
  Forall (all_chars P) l -> Forall (all_chars P) (slice_to l j).
Proof.
  intros H. apply Forall_forall. intros x Hx. unfold slice_to in Hx.
  apply In_firstn in Hx. exact (proj1 (Forall_forall _ _) H _ Hx).
Qed.

Lemma slice_from_chars (l : list str) (i : Z) :
  Forall (all_chars P) l -> Forall (all_chars P) (slice_from l i).
Proof.
  intros H. apply Forall_forall. intros x Hx. unfold slice_from in Hx.
  apply In_skipn in Hx. exact (proj1 (Forall_forall _ _) H _ Hx).
Qed.

Lemma join_chars (sep : str) (l : list str) :
  all_chars P sep -> Forall (all_chars P) l -> all_chars P (join sep l).
Proof.
  intros Hs. induction 1 as [|x l Hx Hl IH]; [apply all_chars_nil|].
  cbn [join]. destruct l as [|y l]; [exact Hx|].
  apply all_chars_app; [exact Hx|]. apply all_chars_app; [exact Hs | exact IH].
Qed.

End CharacterFacts.

Section SpeakerMore.

Import Py FormatSchedule Obs.

(** ** Where the characters of a speaker come from *)

Section Chars.

Variable P : N -> Prop.
Hypothesis P_comma : P 44%N.
Hypothesis P_space : P 32%N.

Lemma comma_space_chars : all_chars P (u ", ").
Proof. intros x [<-|[<-|[]]]; assumption. Qed.

Lemma all_chars_cons (c : N) (s : str) :
  P c -> all_chars P s -> all_chars P (c :: s).
Proof. intros Hc Hs x [<-|Hx]; [exact Hc | apply Hs, Hx]. Qed.

Lemma normalize_company_name_chars (parts : list str) (i : Z) :
  Forall (all_chars P) parts ->
  all_chars P (normalize_company_name parts i).
Proof.
  intros H. unfold normalize_company_name.
  destruct (Z.of_nat (length parts) <=? i)%Z; [apply all_chars_nil|].
  cbv zeta. pose proof (slice_from_chars P parts i H) as Hc.
  destruct (_ && _).
  - repeat apply all_chars_app; try apply item_chars; try exact Hc.
    apply comma_space_chars.
  - destruct (slice_from parts i); [apply all_chars_nil|].
    apply item_chars, Hc.
Qed.

Lemma parse_speaker_entry_chars (entry : str) (sp : Speaker) :
  all_chars P entry ->
  parse_speaker_entry entry = Some sp ->
  all_chars_speaker P sp.
Proof.
  intros H. unfold parse_speaker_entry. cbv zeta.
  pose proof (all_chars_strip P entry H) as He.
  pose proof (map_strip_chars P _ (split_chars P (u ",") _ He)) as Hp.
  repeat match goal with
         | |- context [if ?c then _ else _] => destruct c
         end;
    intros E; inversion E; subst; clear E; unfold all_chars_speaker;
    cbn [name title company all_chars_opt];
    repeat split; auto;
    repeat apply all_chars_app; repeat apply all_chars_cons;
    try assumption;
    try apply join_chars; try apply slice_chars; try apply item_chars;
    try apply comma_space_chars; auto.
Qed.

Lemma parse_speaker_group_chars (group : str) :
  all_chars P group ->
  Forall (all_chars_speaker P) (_parse_speaker_group group).
Proof.
  intros H. unfold _parse_speaker_group. cbv zeta.
  pose proof (map_strip_chars P _ (split_chars P (u " & ") _ H)) as He.
  destruct (_ && _).
  - apply Forall_forall. intros sp Hs. apply in_map_iff in Hs as (n & <- & Hn).
    unfold all_chars_speaker. cbn [name title company all_chars_opt].
    split; [|split; [exact I|]].
    + apply in_app_or in Hn as [Hn|[<-|[]]].
      * exact (proj1 (Forall_forall _ _) (slice_to_chars P _ _ He) _ Hn).
      * apply all_chars_strip, item_chars, split_chars, item_chars, He.
    + apply normalize_company_name_chars, split_chars, item_chars, He.
  - apply Forall_forall. intros sp Hs.
    apply in_flat_map in Hs as (entry & Hin & Hs).
    destruct (parse_speaker_entry entry) as [sp'|] eqn:E; [|destruct Hs].
    destruct Hs as [<-|[]].
    apply (parse_speaker_entry_chars entry sp'); [|exact E].
    exact (proj1 (Forall_forall _ _) He _ Hin).
Qed.

Lemma extract_speakers_chars (summary : str) :
  all_chars P summary ->
  Forall (all_chars_speaker P) (extract_speakers summary).
Proof.
  intros H. unfold extract_speakers.
  destruct (_ || _); [constructor|]. cbv zeta.
  assert (Hc : all_chars P (strip (item [] (split1 (u " - ") summary) 1)))
    by (apply all_chars_strip, item_chars, split1_chars, H).
  destruct (contains (u ";") _).
  - apply Forall_forall. intros sp Hs.
    apply in_flat_map in Hs as (g & Hin & Hs).
    refine (proj1 (Forall_forall _ _) (parse_speaker_group_chars _ _) _ Hs).
    apply all_chars_strip.
    exact (proj1 (Forall_forall _ _) (split_chars P _ _ Hc) _ Hin).
  - apply parse_speaker_group_chars, Hc.
Qed.

End Chars.

(** X10: every character of a speaker's name, title and company is a
    character of the summary, a comma or a space. *)
Theorem speaker_characters (summary : str) :
  Forall (all_chars_speaker
            (fun x => In x summary \/ x = 44%N \/ x = 32%N))
         (extract_speakers summary).
Proof.
  apply extract_speakers_chars; auto.
  intros x Hx. left. exact Hx.
Qed.

(** ** Single entries *)

(** X11: [parse_speaker_entry] gives no speaker exactly for an entry that is
    empty once trimmed, and it reads the trimmed entry only. *)
Theorem parse_speaker_entry_none (entry : str) :
  (parse_speaker_entry entry = None <-> strip entry = [])
  /\ parse_speaker_entry (strip entry) = parse_speaker_entry entry.
Proof.
  split.
  - unfold parse_speaker_entry. cbv zeta. destruct (strip entry) as [|c r].
    + split; reflexivity.
    + cbn [truthy negb].
      repeat match goal with
             | |- context [if ?c then _ else _] => destruct c
             end; split; discriminate.
  - unfold parse_speaker_entry. rewrite strip_idempotent. reflexivity.
Qed.

(** ** The company-suffix normalizer *)

(** X12: [normalize_company_name] looks at the parts from [start_idx] on:
    none gives the empty string; when there are at least two and the last is
    a suffix token, the last two joined by a comma and a space; otherwise
    the last part. *)
Theorem normalize_company_name_cases (pre tail : list str) :
  (tail = [] ->
   normalize_company_name (pre ++ tail) (Z.of_nat (length pre)) = [])
  /\ (forall xs pen last,
         tail = xs ++ [pen; last] ->
         member last COMPANY_SUFFIXES = true ->
         normalize_company_name (pre ++ tail) (Z.of_nat (length pre))
         = pen ++ u ", " ++ last)
  /\ (forall xs last,
         tail = xs ++ [last] ->
         member last COMPANY_SUFFIXES = false \/ xs = [] ->
         normalize_company_name (pre ++ tail) (Z.of_nat (length pre))
         = last).
Proof.
  unfold normalize_company_name. split; [|split].
  - intros ->. rewrite app_nil_r.
    replace (Z.of_nat (length pre) <=? Z.of_nat (length pre))%Z with true
      by (symmetry; apply Z.leb_le; lia).
    reflexivity.
  - intros xs pen last -> Hm.
    replace (Z.of_nat (length (pre ++ xs ++ [pen; last]))
             <=? Z.of_nat (length pre))%Z with false
      by (symmetry; apply Z.leb_gt; rewrite !length_app; cbn [length]; lia).
    rewrite slice_from_app by reflexivity. cbv zeta.
    replace (2 <=? length (xs ++ [pen; last]))%nat with true
      by (symmetry; apply Nat.leb_le; rewrite length_app; cbn [length]; lia).
    replace (item [] (xs ++ [pen; last]) (-1)) with last
      by (change [pen; last] with ([pen] ++ [last]); rewrite app_assoc;
          symmetry; apply item_last).
    rewrite Hm, item_penultimate. reflexivity.
  - intros xs last -> Hm.
    replace (Z.of_nat (length (pre ++ xs ++ [last]))
             <=? Z.of_nat (length pre))%Z with false
      by (symmetry; apply Z.leb_gt; rewrite !length_app; cbn [length]; lia).
    rewrite slice_from_app by reflexivity. cbv zeta.
    rewrite item_last.
    destruct Hm as [Hm| ->].
    + rewrite Hm, andb_false_r. destruct xs; reflexivity.
    + cbn [app length Nat.leb andb]. reflexivity.
Qed.

Lemma normalize_company_name_cases_witness :
  [u " Acme"; u "Inc."] = [] ++ [u " Acme"; u "Inc."]
  /\ member (u "Inc.") COMPANY_SUFFIXES = true
  /\ normalize_company_name ([u "Jane"] ++ [u " Acme"; u "Inc."])
                            (Z.of_nat (length [u "Jane"]))
     = u " Acme" ++ u ", " ++ u "Inc.".
Proof.
  split; [reflexivity|]. split; [reflexivity|].
  apply (proj1 (proj2 (normalize_company_name_cases
                         [u "Jane"] [u " Acme"; u "Inc."]))
               [] (u " Acme") (u "Inc."));
    reflexivity.
Defined.

End SpeakerMore.

Section GroupMore.

Import Py FormatSchedule Obs.

Lemma slice_to_last (A : Type) (l : list A) (x : A) :
  slice_to (l ++ [x]) (-1) = l.
Proof.
  unfold slice_to, bound. cbn [Z.ltb Z.compare]. rewrite length_app.
  cbn [length].
  replace (Z.to_nat (Z.max 0 (Z.of_nat (length l + 1) + -1))) with (length l)
    by lia.
  rewrite firstn_app, Nat.sub_diag, firstn_all. cbn [firstn].
  apply app_nil_r.
Qed.

Lemma existsb_false (A : Type) (f : A -> bool) (l : list A) :
  existsb f l = false <-> forall x, In x l -> f x = false.
Proof.
  induction l as [|a l IH]; cbn [existsb In].
  - split; [intros _ x [] | reflexivity].
  - rewrite orb_false_iff, IH. split.
    + intros [Ha Hl] x [<-|Hx]; auto.
    + intros H. split; [apply H; left; reflexivity|].
      intros x Hx. apply H. right. exact Hx.
Qed.

Lemma entries_speakers_length (l : list str) :
  length (flat_map (fun e => speaker_list (parse_speaker_entry e)) l)
  <= length l.
Proof.
  induction l as [|a l IH]; [apply le_n|].
  cbn [flat_map]. rewrite length_app. cbn [length].
  destruct (parse_speaker_entry a); cbn [speaker_list length]; lia.
Qed.

(** X13: a group of several entries of which only the last has a comma is
    read as speakers sharing a company: one speaker per entry, in order,
    none with a title, all with the company the normalizer finds in the
    last entry, the last speaker named by the text before its first comma.
    Any other group gives the speakers [parse_speaker_entry] finds in its
    entries, in order. *)
Theorem parse_speaker_group_cases (group : str) (firsts : list str)
        (last : str) :
  map strip (split (u " & ") group) = firsts ++ [last] ->
  (firsts <> [] ->
   contains (u ",") last = true ->
   (forall e, In e firsts -> contains (u ",") e = false) ->
   _parse_speaker_group group
   = map (fun n => {| name := n; title := None;
                      company := Some (normalize_company_name
                                         (split (u ",") last) 1) |})
         (firsts ++ [strip (item [] (split (u ",") last) 0)]))
  /\ (firsts = [] \/ contains (u ",") last = false
      \/ (exists e, In e firsts /\ contains (u ",") e = true) ->
      _parse_speaker_group group
      = flat_map (fun e => speaker_list (parse_speaker_entry e))
                 (firsts ++ [last]))
  /\ length (_parse_speaker_group group) <= length (firsts ++ [last]).
Proof.
  intros E.
  assert (Shared :
    firsts <> [] -> contains (u ",") last = true ->
    (forall e, In e firsts -> contains (u ",") e = false) ->
    _parse_speaker_group group
    = map (fun n => {| name := n; title := None;
                       company := Some (normalize_company_name
                                          (split (u ",") last) 1) |})
          (firsts ++ [strip (item [] (split (u ",") last) 0)])).
  { intros Hne Hl Hf. unfold _parse_speaker_group. cbv zeta. rewrite E.
    rewrite item_last, slice_to_last, Hl.
    replace (existsb (contains (u ",")) firsts) with false
      by (symmetry; apply existsb_false, Hf).
    replace (1 <? length (firsts ++ [last]))%nat with true
      by (symmetry; apply Nat.ltb_lt; rewrite length_app; cbn [length];
          destruct firsts; [congruence | cbn [length]; lia]).
    reflexivity. }
  assert (Single :
    firsts = [] \/ contains (u ",") last = false
    \/ (exists e, In e firsts /\ contains (u ",") e = true) ->
    _parse_speaker_group group
    = flat_map (fun e => speaker_list (parse_speaker_entry e))
               (firsts ++ [last])).
  { intros H. unfold _parse_speaker_group. cbv zeta. rewrite E.
    rewrite item_last, slice_to_last.
    replace ((1 <? length (firsts ++ [last]))%nat
             && contains (u ",") last
             && negb (existsb (contains (u ",")) firsts)) with false;
      [reflexivity|].
    symmetry. destruct H as [->|[H|(e & He & Hc)]].
    - reflexivity.
    - rewrite H, andb_false_r. reflexivity.
    - replace (existsb (contains (u ",")) firsts) with true
        by (symmetry; apply existsb_exists; exists e; split; assumption).
      apply andb_false_r. }
  split; [exact Shared|]. split; [exact Single|].
  destruct firsts as [|f firsts].
  - rewrite Single by (left; reflexivity). apply entries_speakers_length.
  - destruct (contains (u ",") last) eqn:Hl.
    + destruct (existsb (contains (u ",")) (f :: firsts)) eqn:Hx.
      * apply existsb_exists in Hx as (e & He & Hc).
        rewrite Single by (right; right; exists e; split; assumption).
        apply entries_speakers_length.
      * rewrite Shared; [|discriminate|reflexivity|apply existsb_false, Hx].
        rewrite length_map, !length_app. cbn [length]. lia.
    + rewrite Single by (right; left; reflexivity).
      apply entries_speakers_length.
Qed.

Lemma parse_speaker_group_cases_witness :
  map strip (split (u " & ") (u "A & B & C,X"))
  = [u "A"; u "B"] ++ [u "C,X"]
  /\ [u "A"; u "B"] <> []
  /\ contains (u ",") (u "C,X") = true
  /\ (forall e, In e [u "A"; u "B"] -> contains (u ",") e = false)
  /\ _parse_speaker_group (u "A & B & C,X")
     = map (fun n => {| name := n; title := None;
                        company := Some (normalize_company_name
                                           (split (u ",") (u "C,X")) 1) |})
           ([u "A"; u "B"] ++ [strip (item [] (split (u ",") (u "C,X")) 0)]).
Proof.
  assert (H : forall e, In e [u "A"; u "B"] -> contains (u ",") e = false)
    by (intros e [<-|[<-|[]]]; reflexivity).
  split; [reflexivity|]. split; [discriminate|]. split; [reflexivity|].
  split; [exact H|].
  apply (proj1 (parse_speaker_group_cases (u "A & B & C,X")
                  [u "A"; u "B"] (u "C,X") eq_refl));
    [discriminate | reflexivity | exact H].
Defined.

(** X14: a summary whose speaker clause (the text after the first [" - "])
    has neither [;] nor [" & "] gives the speaker [parse_speaker_entry]
    reads in that clause, or none. *)
Theorem extract_single_speaker (summary : str) :
  contains (u " - ") summary = true ->
  contains (u ";") (item [] (split1 (u " - ") summary) 1) = false ->
  contains (u " & ") (item [] (split1 (u " - ") summary) 1) = false ->
  extract_speakers summary
  = speaker_list (parse_speaker_entry (item [] (split1 (u " - ") summary) 1)).
Proof.
  intros Hd Hs Ha. unfold extract_speakers. cbv zeta.
  destruct summary as [|c summary]; [discriminate|].
  cbn [truthy negb orb]. rewrite Hd. cbn [negb].
  set (clause := item [] (split1 (u " - ") (c :: summary)) 1) in *.
  replace (contains (u ";") (strip clause)) with false.
  2:{ symmetry. destruct (contains (u ";") (strip clause)) eqn:X;
        [|reflexivity].
      apply contains_strip in X. congruence. }
  unfold _parse_speaker_group. cbv zeta.
  rewrite split_absent.
  2:{ destruct (contains (u " & ") (strip clause)) eqn:X; [|reflexivity].
      apply contains_strip in X. congruence. }
  cbn [map length Nat.ltb Nat.leb andb flat_map]. rewrite app_nil_r.
  rewrite (proj2 (parse_speaker_entry_none (strip clause))).
  rewrite (proj2 (parse_speaker_entry_none clause)).
  destruct (parse_speaker_entry clause); reflexivity.
Qed.

Lemma extract_single_speaker_witness :
  contains (u " - ") (u "Keynote - Ada Lovelace, Analytical Engines") = true
  /\ extract_speakers (u "Keynote - Ada Lovelace, Analytical Engines")
     = speaker_list
         (parse_speaker_entry
            (item [] (split1 (u " - ")
                        (u "Keynote - Ada Lovelace, Analytical Engines")) 1)).
Proof.
  split; [reflexivity|]. apply extract_single_speaker; reflexivity.
Defined.

End GroupMore.

(* ================================================================== *)
(** * Further properties of the documents *)
(* ================================================================== *)

Section DocumentMore.

Import Py FormatSchedule Obs.

Variable nfkd : str -> str.

Lemma to_ascii_chars (s : str) : all_chars ascii (to_ascii nfkd s).
Proof.
  unfold to_ascii. destruct (negb (truthy s)); [intros x []|].
  intros x Hx. apply filter_In in Hx. exact (proj2 Hx).
Qed.

(** X15: whatever the normalization does, the title, the description, the
    categories and the speakers of a document hold ASCII characters only. *)
Theorem document_ascii (event : ParseSchedule.Event) :
  let m := metadata (format_event_to_document nfkd event) in
  all_chars ascii (doc_title m)
  /\ all_chars ascii (doc_description m)
  /\ Forall (all_chars ascii) (doc_categories m)
  /\ (forall sps, doc_speakers m = Some sps ->
                  Forall (all_chars_speaker ascii) sps).
Proof.
  cbn [metadata format_event_to_document doc_title doc_description
       doc_categories doc_speakers].
  pose proof (to_ascii_chars (ParseSchedule.summary event)) as Hs.
  split; [|split; [|split]].
  - destruct (contains _ _); [|exact Hs].
    apply all_chars_strip, item_chars, split_chars, Hs.
  - apply to_ascii_chars.
  - apply Forall_forall. intros c Hc. apply in_map_iff in Hc as (c0 & <- & _).
    apply to_ascii_chars.
  - intros sps E.
    assert (F : Forall (all_chars_speaker ascii)
                  (extract_speakers (to_ascii nfkd (ParseSchedule.summary event))))
      by (apply extract_speakers_chars; [reflexivity | reflexivity | exact Hs]).
    destruct (extract_speakers _); [discriminate|].
    inversion E; subst. exact F.
Qed.

(** X16: the title of a document never contains the separator [" - "]. *)
Theorem title_without_separator (event : ParseSchedule.Event) :
  contains (u " - ")
           (doc_title (metadata (format_event_to_document nfkd event)))
  = false.
Proof.
  cbn [metadata format_event_to_document doc_title].
  destruct (contains (u " - ") (to_ascii nfkd (ParseSchedule.summary event)))
    eqn:E; [|exact E].
  match goal with |- contains ?sep (strip ?h) = false =>
    destruct (contains sep (strip h)) eqn:X; [|reflexivity];
    apply contains_strip in X;
    rewrite split_head_clean in X by discriminate; discriminate
  end.
Qed.

(** X17: the documents of two lists of events put end to end are the
    documents of the first followed by those of the second, and an event in
    an excluded category can be put anywhere among the events without
    changing the documents. *)
Theorem documents_compose (m : ParseSchedule.Metadata)
        (evs1 evs2 : list ParseSchedule.Event) (index : str) :
  let docs evs :=
    documents (format_schedule_for_indexing nfkd
                 {| ParseSchedule.metadata := m;
                    ParseSchedule.events := evs |} index) in
  docs (evs1 ++ evs2) = docs evs1 ++ docs evs2
  /\ forall e, excluded e = true -> docs (evs1 ++ e :: evs2) = docs (evs1 ++ evs2).
Proof.
  cbn [documents format_schedule_for_indexing ParseSchedule.events].
  split.
  - rewrite filter_app, map_app. reflexivity.
  - intros e He. rewrite !filter_app. cbn [filter]. rewrite He. reflexivity.
Qed.

Lemma join_head (sep : str) (c : N) (p : str) (l : list str) :
  exists r, join sep ((c :: p) :: l) = c :: r.
Proof. cbn [join]. destruct l; eexists; reflexivity. Qed.

(** X18: the location text of a parsed location is never empty. *)
Theorem location_text_not_empty (location : str) (loc : Location) :
  parse_location location = Some loc -> location_to_text loc <> [].
Proof.
  unfold parse_location. destruct (negb (truthy location)); [discriminate|].
  cbv zeta.
  match goal with |- context [fold_left assign_part ?l no_location] =>
    generalize (fold_left assign_part l no_location)
  end.
  intros l0 H.
  destruct (opt_truthy (building l0) || opt_truthy (level l0)
            || opt_truthy (room l0)) eqn:T; [|discriminate].
  inversion H; subst. unfold location_to_text.
  destruct (building loc) as [[|b0 b]|], (level loc) as [[|l1 l]|],
           (room loc) as [[|r0 r]|];
    cbn [opt_truthy truthy orb] in T; try discriminate T;
    cbn [truthy app];
    match goal with
    | |- join ?sep ((?x ++ ?y) :: ?t) <> [] =>
        change (x ++ y) with (66%N :: skipn 1 x ++ y) || 
        change (x ++ y) with (76%N :: skipn 1 x ++ y)
    | _ => idtac
    end;
    unfold not;
    match goal with
    | |- join ?sep ((?c :: ?p) :: ?t) = [] -> False =>
        change (join sep ((c :: p) :: t) = [] -> False);
        destruct (join_head sep c p t) as [r' ->]; discriminate
    end.
Qed.

Lemma location_text_not_empty_witness :
  parse_location (u "Level 4 | B406") 
  = Some {| building := None; level := Some (u "4"); room := Some (u "B406") |}
  /\ location_to_text
       {| building := None; level := Some (u "4"); room := Some (u "B406") |}
     <> [].
Proof.
  split; [reflexivity|].
  apply (location_text_not_empty (u "Level 4 | B406")). reflexivity.
Defined.

(** X19: the text of a document is empty exactly when the event has, after
    folding to ASCII, no description, no speaker, no location and no
    category. *)
Theorem document_text_empty (event : ParseSchedule.Event) :
  text (format_event_to_document nfkd event) = []
  <-> to_ascii nfkd (ParseSchedule.description event) = []
      /\ extract_speakers (to_ascii nfkd (ParseSchedule.summary event)) = []
      /\ parse_location (ParseSchedule.location event) = None
      /\ ParseSchedule.categories event = [].
Proof.
  cbn [text format_event_to_document].
  destruct (to_ascii nfkd (ParseSchedule.description event)) as [|d0 d];
    destruct (extract_speakers _) as [|s0 sps];
    destruct (parse_location _) as [loc|];
    destruct (ParseSchedule.categories event) as [|c0 cs];
    cbn [truthy app map];
    try (split; [intros _; repeat split; reflexivity | reflexivity]);
    (split; [|intros (? & ? & ? & ?); discriminate]);
    intros H; exfalso; revert H;
    try change (u "Speakers: " ++ ?y) with (83%N :: skipn 1 (u "Speakers: ") ++ y);
    try change (u "Location: " ++ ?y) with (76%N :: skipn 1 (u "Location: ") ++ y);
    try change (u "Categories: " ++ ?y) with (67%N :: skipn 1 (u "Categories: ") ++ y);
    match goal with
    | |- join ?sep ((?c :: ?p) :: ?t) = [] -> False =>
        change (join sep ((c :: p) :: t) = [] -> False);
        destruct (join_head sep c p t) as [r' ->]; discriminate
    end.
Qed.

End DocumentMore.

(* ================================================================== *)
(** * Instances of the further properties *)
(* ================================================================== *)

Section Instances.

Import Py PyDatetime ParseSchedule Obs.

Lemma parse_ics_datetime_raises_witness :
  parse_ics_datetime (u "00010101T045601Z") = Raise OverflowError
  /\ OverflowError = OverflowError
  /\ exists dt, strptime (u "00010101T045601Z") = Ok dt
                /\ astimezone_new_york dt = Raise OverflowError.
Proof.
  assert (H : parse_ics_datetime (u "00010101T045601Z") = Raise OverflowError)
    by (vm_compute; reflexivity).
  split; [exact H|].
  exact (parse_ics_datetime_raises (u "00010101T045601Z") OverflowError H).
Defined.

Lemma parse_ics_to_json_raises_witness :
  let text := u "BEGIN:VEVENT" ++ [NL] ++ u "SEQUENCE:" ++ [28; 53]%N
              ++ [NL] ++ u "END:VEVENT" in
  parse_ics_to_json text = Raise ValueError
  /\ exists raw v,
      In raw (split [NL] text)
      /\ ((strip raw = u "SEQUENCE:" ++ v /\ int_of_str v = None
           /\ ValueError = ValueError)
          \/ ((strip raw = u "DTSTAMP:" ++ v \/ strip raw = u "DTSTART:" ++ v
               \/ strip raw = u "DTEND:" ++ v)
              /\ parse_ics_datetime v = Raise OverflowError
              /\ ValueError = OverflowError)).
Proof.
  intros text.
  assert (H : parse_ics_to_json text = Raise ValueError)
    by (vm_compute; reflexivity).
  split; [exact H|].
  exact (parse_ics_to_json_raises text ValueError H).
Defined.

Lemma parsed_events_bounded_witness :
  let text := ics ["END:VEVENT"; "BEGIN:VEVENT"; "UID:1"; "BEGIN:VEVENT";
                   "UID:2"; "END:VEVENT"; "END:VEVENT"] in
  let cal := {| metadata := no_metadata;
                events := [set_uid (u "2") new_event] |} in
  parse_ics_to_json text = Ok cal
  /\ length (events cal) <= length (filter is_begin (split [NL] text))
  /\ length (events cal) <= length (filter is_end (split [NL] text)).
Proof.
  intros text cal.
  assert (H : parse_ics_to_json text = Ok cal) by (vm_compute; reflexivity).
  split; [exact H|].
  exact (parsed_events_bounded text cal H).
Defined.

Lemma run_appends_trimmed_witness :
  let st := {| calendar := {| metadata := no_metadata;
                              events := [set_uid (u "0") new_event] |};
               current_event := None; current_field := None |} in
  let ls := [u "BEGIN:VEVENT"; u "SUMMARY:  Opening \, day 1  ";
             u "END:VEVENT"] in
  let st' := {| calendar :=
                  {| metadata := no_metadata;
                     events := [set_uid (u "0") new_event;
                                set_summary (u "Opening , day 1") new_event] |};
                current_event := None; current_field := None |} in
  run st ls = Ok st'
  /\ exists added,
      events (calendar st') = events (calendar st) ++ added
      /\ Forall trimmed_event added.
Proof.
  intros st ls st'.
  assert (H : run st ls = Ok st') by (vm_compute; reflexivity).
  split; [exact H|].
  exact (run_appends_trimmed ls st st' H).
Defined.

Lemma parsed_events_trimmed_witness :
  let text := ics ["BEGIN:VEVENT"; "LOCATION:  Hall 1\; East  ";
                   "END:VEVENT"] in
  let cal := {| metadata := no_metadata;
                events := [set_location (u "Hall 1; East") new_event] |} in
  parse_ics_to_json text = Ok cal
  /\ Forall trimmed_event (events cal).
Proof.
  intros text cal.
  assert (H : parse_ics_to_json text = Ok cal) by (vm_compute; reflexivity).
  split; [exact H|].
  exact (parsed_events_trimmed text cal H).
Defined.

End Instances.

(* ================================================================== *)
(** * Further properties of the location parser *)
(* ================================================================== *)

Section LocationMore.

Import Py FormatSchedule Obs.

Lemma startswith_cut (p m t t' : str) (c : N) :
  ~ In c p ->
  startswith p (m ++ c :: t) = startswith p (m ++ c :: t').
Proof.
  revert m; induction p as [|x p IH]; intros m H; [reflexivity|].
  destruct m as [|y m]; cbn [app startswith].
  - destruct (N.eqb_spec x c) as [->|_];
      [exfalso; apply H; left; reflexivity | reflexivity].
  - rewrite (IH m) by (intros Hin; apply H; right; exact Hin). reflexivity.
Qed.

Lemma startswith_long (p a t t' : str) :
  length p <= length a ->
  startswith p (a ++ t) = startswith p (a ++ t').
Proof.
  revert a; induction p as [|x p IH]; intros a H; [reflexivity|].
  destruct a as [|z a]; [cbn in H; lia|].
  cbn [app startswith]. rewrite (IH a) by (cbn in H; lia). reflexivity.
Qed.

(** Whether the pattern matches at a position before a later match does not
    depend on what follows that later match. *)
Lemma city_at_tail (s w t t' : str) :
  city_at (s ++ 44%N :: w ++ u "Atlanta" ++ t)
  = city_at (s ++ 44%N :: w ++ u "Atlanta" ++ t').
Proof.
  destruct s as [|c s]; cbn [app city_at].
  - destruct (lstrip w) as [|y r] eqn:L.
    + apply lstrip_nil in L.
      rewrite (lstrip_blank_app w (u "Atlanta" ++ t) L).
      rewrite (lstrip_blank_app w (u "Atlanta" ++ t') L).
      change (u "Atlanta") with [65; 116; 108; 97; 110; 116; 97]%N.
      reflexivity.
    + rewrite !lstrip_app_keep by (rewrite L; discriminate).
      rewrite !app_assoc. apply startswith_long.
      rewrite length_app. cbn. lia.
  - destruct (N.eqb_spec c 44) as [->|Hc].
    + destruct (lstrip s) as [|y r] eqn:L.
      * apply lstrip_nil in L.
        rewrite (lstrip_blank_app s (44%N :: w ++ u "Atlanta" ++ t) L).
        rewrite (lstrip_blank_app s (44%N :: w ++ u "Atlanta" ++ t') L).
        reflexivity.
      * rewrite !lstrip_app_keep by (rewrite L; discriminate).
        apply startswith_cut. cbn. intuition discriminate.
    + destruct c as [|p]; [reflexivity|].
      do 6 (destruct p as [p|p|]; try reflexivity). congruence.
Qed.

Lemma before_city_tail (s w t t' : str) :
  blank w ->
  before_city (s ++ 44%N :: w ++ u "Atlanta" ++ t)
  = before_city (s ++ 44%N :: w ++ u "Atlanta" ++ t').
Proof.
  intros Hw. induction s as [|c s IH].
  - cbn [app before_city city_at].
    rewrite (lstrip_blank_app w (u "Atlanta" ++ t) Hw).
    rewrite (lstrip_blank_app w (u "Atlanta" ++ t') Hw).
    reflexivity.
  - change ((c :: s) ++ ?x) with (c :: (s ++ x)). cbn [before_city].
    change (c :: s ++ ?x) with ((c :: s) ++ x).
    rewrite (city_at_tail (c :: s) w t t').
    destruct (city_at _); [reflexivity|]. rewrite IH. reflexivity.
Qed.

(** X20: what follows the first match of the city pattern is ignored: the
    result is the same whatever text comes after the name. *)
Theorem parse_location_ignores_tail (pre w rest rest' : str) :
  blank w ->
  parse_location (pre ++ u "," ++ w ++ u "Atlanta" ++ rest)
  = parse_location (pre ++ u "," ++ w ++ u "Atlanta" ++ rest').
Proof.
  intros Hw. unfold parse_location.
  change (u ",") with [44%N]. cbn [app].
  rewrite (before_city_tail pre w rest rest' Hw).
  destruct pre; reflexivity.
Qed.

Lemma parse_location_ignores_tail_witness :
  blank (u "  ")
  /\ parse_location (u "Hall B | Level 2" ++ u "," ++ u "  " ++ u "Atlanta"
                     ++ u ", GA | Level 9")
     = parse_location (u "Hall B | Level 2" ++ u "," ++ u "  " ++ u "Atlanta"
                       ++ []).
Proof.
  split; [reflexivity|].
  apply parse_location_ignores_tail. reflexivity.
Defined.

End LocationMore.

Section AsciiEvents.

Import Py FormatSchedule Obs.

Variable nfkd : str -> str.
Hypothesis nfkd_ascii : forall s, forallb is_ascii s = true -> nfkd s = s.

(** X21: with a normalization that leaves ASCII text as it is, an event
    whose summary, description and categories are ASCII keeps them in its
    document: the description and the categories are the event's, and the
    speakers are those of the event's summary. *)
Theorem ascii_event_kept (event : ParseSchedule.Event) :
  forallb is_ascii (ParseSchedule.summary event) = true ->
  forallb is_ascii (ParseSchedule.description event) = true ->
  Forall (fun c => forallb is_ascii c = true) (ParseSchedule.categories event) ->
  let m := metadata (format_event_to_document nfkd event) in
  doc_description m = ParseSchedule.description event
  /\ doc_categories m = ParseSchedule.categories event
  /\ doc_speakers m
     = match extract_speakers (ParseSchedule.summary event) with
       | [] => None
       | sps => Some sps
       end.
Proof.
  intros Hs Hd Hc.
  cbn [metadata format_event_to_document doc_description doc_categories
       doc_speakers].
  rewrite (to_ascii_fixes_ascii nfkd nfkd_ascii _ Hs).
  rewrite (to_ascii_fixes_ascii nfkd nfkd_ascii _ Hd).
  split; [reflexivity|]. split.
  - induction Hc as [|c cs Hc0 _ IH]; [reflexivity|].
    cbn [map]. rewrite (to_ascii_fixes_ascii nfkd nfkd_ascii _ Hc0), IH.
    reflexivity.
  - destruct (extract_speakers _); reflexivity.
Qed.

End AsciiEvents.

Section AsciiEventsInstance.

Import Py FormatSchedule Obs.

Lemma ascii_event_kept_witness :
  let event :=
    ParseSchedule.set_categories [u "Keynote"]
      (ParseSchedule.set_description (u "Welcome")
         (ParseSchedule.set_summary (u "Opening - Ada Lovelace")
            ParseSchedule.new_event)) in
  let m := metadata (format_event_to_document nfkd_latin event) in
  (forall s, forallb is_ascii s = true -> nfkd_latin s = s)
  /\ doc_description m = ParseSchedule.description event
  /\ doc_categories m = ParseSchedule.categories event
  /\ doc_speakers m
     = match extract_speakers (ParseSchedule.summary event) with
       | [] => None
       | sps => Some sps
       end.
Proof.
  intros event m. split; [exact nfkd_latin_ascii|].
  apply (ascii_event_kept nfkd_latin nfkd_latin_ascii event);
    [reflexivity | reflexivity | repeat constructor].
Defined.

End AsciiEventsInstance.

(* ================================================================== *)
(** * The location text read back *)
(* ================================================================== *)

Section LocationFields.

Import Py FormatSchedule Inv Obs.

(** ** Parts of a string *)

Lemma part_of_refl (s : str) : part_of s s.
Proof. exists [], []. rewrite app_nil_r. reflexivity. Qed.

Lemma part_of_trans (a b c : str) : part_of a b -> part_of b c -> part_of a c.
Proof.
  intros (x & y & ->) (x' & y' & ->). exists (x' ++ x), (y ++ y').
  rewrite <- !app_assoc. reflexivity.
Qed.

Lemma part_of_strip (s : str) : part_of (strip s) s.
Proof. destruct (strip_middle s) as (w1 & w2 & E & _). exists w1, w2. exact E. Qed.

Lemma part_of_skipn (n : nat) (s : str) : part_of (skipn n s) s.
Proof.
  exists (firstn n s), []. rewrite app_nil_r. symmetry. apply firstn_skipn.
Qed.

Lemma part_of_cons (f s : str) (c : N) : part_of f s -> part_of f (c :: s).
Proof. intros (a & b & ->). exists (c :: a), b. reflexivity. Qed.

Lemma part_of_app_l (f s w : str) : part_of f s -> part_of f (w ++ s).
Proof.
  intros (a & b & ->). exists (w ++ a), b. rewrite <- app_assoc. reflexivity.
Qed.

Lemma part_of_In (f s : str) (x : N) : part_of f s -> In x f -> In x s.
Proof.
  intros (a & b & ->) H. apply in_or_app. right. apply in_or_app. left. exact H.
Qed.

Lemma split_aux_part (sep s cur : str) (k : nat) :
  k = 0 \/ cur = [] ->
  forall p, In p (split_aux sep s k cur) -> part_of p (rev cur ++ s).
Proof.
  revert k cur; induction s as [|c s IH]; intros k cur Hk p Hp.
  - destruct Hp as [<-|[]]. rewrite app_nil_r. apply part_of_refl.
  - cbn [split_aux] in Hp. destruct k as [|k].
    + destruct (startswith sep (c :: s)).
      * destruct Hp as [<-|Hp].
        -- exists [], (c :: s). reflexivity.
        -- apply part_of_app_l, part_of_cons.
           apply (IH _ [] (or_intror eq_refl) p Hp).
      * specialize (IH 0 (c :: cur) (or_introl eq_refl) p Hp).
        cbn [rev] in IH. rewrite <- app_assoc in IH. exact IH.
    + destruct Hk as [Hk| ->]; [discriminate|].
      apply part_of_cons. apply (IH k [] (or_intror eq_refl) p Hp).
Qed.

Lemma split_part (sep s p : str) : In p (split sep s) -> part_of p s.
Proof. apply (split_aux_part sep s [] 0). left. reflexivity. Qed.

Lemma split_aux_char_free (c : N) (s cur : str) :
  ~ In c cur ->
  forall p, In p (split_aux [c] s 0 cur) -> ~ In c p.
Proof.
  revert cur; induction s as [|x s IH]; intros cur Hc p Hp.
  - destruct Hp as [<-|[]]. intros H. apply Hc, in_rev, H.
  - cbn [split_aux startswith length Nat.sub] in Hp.
    rewrite andb_true_r in Hp.
    destruct (N.eqb_spec c x) as [->|Hne].
    + destruct Hp as [<-|Hp].
      * intros H. apply Hc, in_rev, H.
      * apply (IH [] (fun H => H) p Hp).
    + apply (IH (x :: cur)); [|exact Hp].
      intros [H|H]; [congruence | exact (Hc H)].
Qed.

Lemma split_char_free (c : N) (s p : str) :
  In p (split [c] s) -> ~ In c p.
Proof. apply (split_aux_char_free c s []). intros []. Qed.

(** ** Matches of the city pattern *)

Lemma city_at_app (b t : str) : city_at b = true -> city_at (b ++ t) = true.
Proof.
  intros H. apply city_at_spec in H as (w & r & -> & W).
  apply city_at_spec. exists w, (r ++ t). split; [|exact W].
  rewrite <- !app_assoc. reflexivity.
Qed.

Lemma no_city_part (f s : str) : part_of f s -> no_city s -> no_city f.
Proof.
  intros (x & y & ->) H a b ->.
  destruct (city_at b) eqn:E; [|reflexivity].
  apply (city_at_app b y) in E.
  rewrite (H (x ++ a) (b ++ y)) in E; [discriminate|].
  rewrite <- !app_assoc. reflexivity.
Qed.

Lemma no_city_before (s : str) : no_city (before_city s).
Proof.
  destruct (before_city_split s) as (rest & _ & _ & M).
  intros a b E. destruct b as [|c b]; [reflexivity|].
  destruct (city_at (c :: b)) eqn:C; [|reflexivity].
  apply (city_at_app _ rest) in C.
  rewrite (M a (c :: b) E) in C by discriminate. discriminate.
Qed.

Lemma before_city_none (s : str) : no_city s -> before_city s = s.
Proof.
  induction s as [|c s IH]; intros H; [reflexivity|].
  cbn [before_city]. rewrite (H [] (c :: s) eq_refl).
  rewrite IH; [reflexivity|].
  intros a b E. apply (H (c :: a) b). rewrite E. reflexivity.
Qed.

(** ** The fields [parse_location] stores *)

Lemma room_tests (part : str) :
  room_ok part ->
  forall p r, part = p ++ r ->
              lower p <> u "building " /\ lower p <> u "level ".
Proof.
  intros [Hb Hl] p r ->. split; intros E.
  - rewrite (@startswith_lower (u "building ") p r E) in Hb. discriminate.
  - rewrite (@startswith_lower (u "level ") p r E) in Hl. discriminate.
Qed.

Lemma value_ok (seg : str) (n : nat) :
  ~ In 124%N (strip seg) -> no_city (strip seg) ->
  strip (slice_from (strip seg) (Z.of_nat n)) <> [] ->
  field_ok (strip (slice_from (strip seg) (Z.of_nat n))).
Proof.
  intros Hbar Hcity Hne.
  assert (Hp : part_of (strip (slice_from (strip seg) (Z.of_nat n))) (strip seg)).
  { eapply part_of_trans; [apply part_of_strip|]. unfold slice_from.
    apply part_of_skipn. }
  split; [exact Hne|]. split; [apply strip_idempotent|]. split.
  - intros H. apply Hbar. exact (part_of_In _ _ _ Hp H).
  - exact (no_city_part _ _ Hp Hcity).
Qed.

Lemma assign_part_ok (loc : Location) (seg : str) :
  ~ In 124%N (strip seg) -> no_city (strip seg) ->
  loc_ok loc -> loc_ok (assign_part loc (strip seg)).
Proof.
  intros Hbar Hcity (Hb & Hl & Hr). unfold assign_part.
  destruct (startswith (u "building ") (lower (strip seg))) eqn:B.
  - split; [|split; assumption]. cbn [building opt_holds].
    apply (value_ok seg 9 Hbar Hcity).
    exact (@prefix_remainder (u "building") seg B eq_refl).
  - destruct (startswith (u "level ") (lower (strip seg))) eqn:L.
    + split; [assumption|]. split; [|assumption]. cbn [level opt_holds].
      apply (value_ok seg 6 Hbar Hcity).
      exact (@prefix_remainder (u "level") seg L eq_refl).
    + destruct (strip seg) as [|c r] eqn:S; [repeat split; assumption|].
      split; [assumption|]. split; [assumption|]. cbn [truthy room opt_holds].
      rewrite <- S in *. split; [|split; assumption].
      split; [rewrite S; discriminate|]. split; [apply strip_idempotent|].
      split; assumption.
Qed.

Lemma fold_assign_ok (segs : list str) (loc : Location) :
  Forall (fun seg => ~ In 124%N (strip seg) /\ no_city (strip seg)) segs ->
  loc_ok loc -> loc_ok (fold_left assign_part (map strip segs) loc).
Proof.
  intros H. revert loc. induction H as [|s segs [H1 H2] _ IH]; intros loc Hl;
    [exact Hl|].
  cbn [map fold_left]. apply IH, assign_part_ok; assumption.
Qed.

Lemma parse_location_ok (location : str) (loc : Location) :
  parse_location location = Some loc ->
  loc_ok loc
  /\ opt_truthy (building loc) || opt_truthy (level loc)
     || opt_truthy (room loc) = true.
Proof.
  unfold parse_location. destruct (negb (truthy location)); [discriminate|].
  cbv zeta.
  set (X := strip (before_city location)).
  assert (Hx : no_city X)
    by (apply (no_city_part _ _ (part_of_strip _)), no_city_before).
  assert (Hl : loc_ok (fold_left assign_part (map strip (split (u "|") X))
                                 no_location)).
  { apply fold_assign_ok; [|repeat split; exact I].
    apply Forall_forall. intros p Hp. split.
    - intros H. apply strip_incl in H.
      exact (split_char_free 124%N X p Hp H).
    - apply (no_city_part _ p (part_of_strip p)).
      apply (no_city_part _ X (split_part _ _ _ Hp)), Hx. }
  destruct (_ || _) eqn:T; [|discriminate].
  intros E. inversion E; subst. split; [exact Hl | exact T].
Qed.

End LocationFields.

Section LocationRoundTrip.

Import Py FormatSchedule Inv Obs.

(** ** Trimmed strings *)

Lemma trimmed_last (s : str) :
  s <> [] -> strip s = s -> exists r z, s = r ++ [z] /\ isspace z = false.
Proof.
  intros Hne E. destruct (@exists_last _ s Hne) as (r & z & Es).
  exists r, z. split; [exact Es|].
  apply (@strip_last s r z). rewrite E. exact Es.
Qed.

Lemma trimmed_head (s : str) :
  s <> [] -> strip s = s -> exists c r, s = c :: r /\ isspace c = false.
Proof.
  intros Hne E. destruct s as [|c r]; [congruence|].
  exists c, r. split; [reflexivity|]. apply (@strip_head (c :: r) c r E).
Qed.

Lemma strip_fixed (s : str) (c z : N) (r r' : str) :
  s = c :: r -> isspace c = false ->
  s = r' ++ [z] -> isspace z = false -> strip s = s.
Proof.
  intros E1 H1 E2 H2. unfold strip.
  rewrite (lstrip_keep s c r E1 H1). exact (rstrip_keep s r' z E2 H2).
Qed.

Lemma suffix_last (a b r : str) (z : N) :
  b <> [] -> a ++ b = r ++ [z] -> exists r', b = r' ++ [z].
Proof.
  intros Hb E. destruct (@exists_last _ b Hb) as (r' & z' & ->).
  rewrite app_assoc in E. apply app_inj_tail in E as [_ ->].
  exists r'. reflexivity.
Qed.

Lemma blank_last (b r : str) (z : N) :
  b = r ++ [z] -> isspace z = false -> ~ blank b.
Proof.
  intros -> Hz H. unfold blank in H. rewrite forallb_app in H.
  apply andb_true_iff in H as [_ H]. cbn in H. rewrite Hz in H. discriminate.
Qed.

(** ** The joined text has no match of the city pattern *)

Lemma startswith_app_inv (p m t : str) :
  startswith p (m ++ t) = true ->
  startswith p m = true \/ exists x t', t = x :: t' /\ In x p.
Proof.
  revert m; induction p as [|x p IH]; intros m H; [left; reflexivity|].
  destruct m as [|y m]; cbn [app] in H.
  - right. destruct t as [|z t]; [discriminate|]. cbn [startswith] in H.
    apply andb_true_iff in H as [E _]. apply N.eqb_eq in E. subst z.
    exists x, t. split; [reflexivity | left; reflexivity].
  - cbn [startswith] in H |- *. apply andb_true_iff in H as [E H].
    rewrite E. cbn [andb].
    destruct (IH m H) as [L|(z & t' & -> & Hin)]; [left; exact L | right].
    exists z, t'. split; [reflexivity | right; exact Hin].
Qed.

Lemma city_at_segment (b t : str) (r : str) (z : N) :
  b = r ++ [z] -> isspace z = false ->
  city_at b = false -> after_segment t -> city_at (b ++ t) = false.
Proof.
  intros Eb Hz Hc Ht. destruct b as [|c b']; [destruct r; discriminate|].
  cbn [app city_at] in *.
  destruct (N.eqb_spec c 44) as [->|Hne].
  - destruct (lstrip b') as [|y m] eqn:L.
    + apply lstrip_nil in L. rewrite (lstrip_blank_app b' t L).
      destruct b' as [|x b''].
      * destruct Ht as [->|(t' & ->)]; reflexivity.
      * exfalso. destruct r as [|c0 r]; [discriminate|].
        injection Eb as _ Eb. exact (blank_last (x :: b'') r z Eb Hz L).
    + rewrite lstrip_app_keep by (rewrite L; discriminate). rewrite L.
      destruct (startswith (u "Atlanta") ((y :: m) ++ t)) eqn:S;
        [|reflexivity].
      apply startswith_app_inv in S as [S|(x & t' & E & Hin)];
        [rewrite S in Hc; discriminate|].
      destruct Ht as [->|(t'' & ->)]; [discriminate|].
      injection E as <- _. exfalso. cbn in Hin. intuition discriminate.
  - destruct c as [|p]; [reflexivity|].
    do 6 (destruct p as [p|p|]; try reflexivity). congruence.
Qed.

Lemma no_city_app (s t : str) :
  s <> [] -> strip s = s -> no_city s -> no_city t -> after_segment t ->
  no_city (s ++ t).
Proof.
  intros Hne Hs Cs Ct Ht a b E.
  destruct (trimmed_last s Hne Hs) as (r & z & Es & Hz).
  revert a E. induction s as [|c s _] using rev_ind; [congruence|].
  clear Hne. intros a E.
  apply app_eq_app in E as (l & [[E1 E2]|[E1 E2]]).
  - (* the suffix starts in the segment *)
    destruct l as [|x l].
    + rewrite app_nil_l in E2. subst b. apply (Ct [] t). reflexivity.
    + subst b. destruct (suffix_last a (x :: l) r z) as (r' & El);
        [discriminate | rewrite <- E1; exact Es |].
      apply (city_at_segment (x :: l) t r' z El Hz); [|exact Ht].
      apply (Cs a (x :: l)). exact E1.
  - apply (Ct l b). exact E2.
Qed.

Lemma no_city_literal (q f : str) :
  ~ In 44%N q -> no_city f -> no_city (q ++ f).
Proof.
  intros Hq Hf a b E. apply app_eq_app in E as (l & [[E1 E2]|[E1 E2]]).
  - destruct l as [|x l].
    + rewrite app_nil_l in E2. subst b. apply (Hf [] f). reflexivity.
    + subst b. cbn [app city_at].
      assert (Hx : x <> 44%N).
      { intros ->. apply Hq. rewrite E1. apply in_or_app. right. left.
        reflexivity. }
      destruct x as [|p]; [reflexivity|].
      do 6 (destruct p as [p|p|]; try reflexivity). congruence.
  - apply (Hf l b). exact E2.
Qed.

Lemma join_after (l : list str) (s : str) :
  after_segment (match l with [] => [] | _ => u " | " ++ join (u " | ") l end).
Proof.
  destruct l; [left; reflexivity | right]. eexists. reflexivity.
Qed.

Lemma join_cons (sep s : str) (l : list str) :
  join sep (s :: l)
  = s ++ match l with [] => [] | _ => sep ++ join sep l end.
Proof. cbn [join]. destruct l; [rewrite app_nil_r|]; reflexivity. Qed.

Lemma no_city_join (l : list str) :
  Forall field_ok l -> no_city (join (u " | ") l).
Proof.
  induction 1 as [|s l (Hne & Hs & _ & Hc) Hl IH].
  - intros a b E. symmetry in E. apply app_eq_nil in E as [_ ->]. reflexivity.
  - rewrite join_cons. apply no_city_app; try assumption.
    + destruct l as [|s' l'].
      * intros a b E. symmetry in E. apply app_eq_nil in E as [_ ->].
        reflexivity.
      * apply no_city_literal; [|exact IH]. cbn. intuition discriminate.
    + apply (join_after l s).
Qed.

(** ** The joined text is trimmed *)

Lemma join_last (sep : str) (l : list str) (s r : str) (z : N) :
  last l s = r ++ [z] -> l <> [] -> exists r', join sep l = r' ++ [z].
Proof.
  induction l as [|x l IH]; [congruence|]. intros E _.
  destruct l as [|y l].
  - exists r. exact E.
  - destruct IH as (r' & E'); [exact E | discriminate|].
    exists (x ++ sep ++ r').
    change (join sep (x :: y :: l)) with (x ++ sep ++ join sep (y :: l)).
    rewrite E', <- !app_assoc. reflexivity.
Qed.

Lemma last_In (A : Type) (l : list A) (d : A) : l <> [] -> In (last l d) l.
Proof.
  induction l as [|x l IH]; [congruence|]. intros _.
  destruct l as [|y l]; [left; reflexivity|]. right. apply IH. discriminate.
Qed.

Lemma join_trimmed (l : list str) :
  Forall field_ok l -> l <> [] ->
  strip (join (u " | ") l) = join (u " | ") l.
Proof.
  intros H Hne. destruct l as [|x l]; [congruence|].
  assert (Hx : field_ok x) by (inversion H; assumption).
  destruct Hx as (Hxn & Hxs & _).
  destruct (trimmed_head x Hxn Hxs) as (c & r & -> & Hc).
  destruct (join_head (u " | ") c r l) as (r1 & E1).
  assert (Hl : field_ok (last ((c :: r) :: l) [])).
  { rewrite Forall_forall in H. apply H, last_In. discriminate. }
  destruct Hl as (Hln & Hls & _).
  destruct (trimmed_last _ Hln Hls) as (r2 & z & E2 & Hz).
  destruct (join_last (u " | ") ((c :: r) :: l) [] r2 z E2) as (r3 & E3);
    [discriminate|].
  exact (strip_fixed _ c z r1 r3 E1 Hc E3 Hz).
Qed.

(** ** Splitting the joined text *)

Lemma split_char_app (c : N) (a t : str) :
  ~ In c a -> split [c] (a ++ c :: t) = a :: split [c] t.
Proof.
  intros H. unfold split.
  assert (G : forall cur, split_aux [c] (a ++ c :: t) 0 cur
                          = (rev cur ++ a) :: split_aux [c] t 0 []).
  { induction a as [|x a IH]; intros cur.
    - cbn [app split_aux startswith length Nat.sub]. rewrite N.eqb_refl.
      cbn [andb]. rewrite app_nil_r. reflexivity.
    - cbn [app split_aux startswith length Nat.sub].
      destruct (N.eqb_spec c x) as [->|_];
        [exfalso; apply H; left; reflexivity|].
      cbn [andb]. rewrite IH by (intros Hin; apply H; right; exact Hin).
      cbn [rev]. rewrite <- app_assoc. reflexivity. }
  apply (G []).
Qed.

Lemma split_char_cons (c x : N) (t : str) :
  x <> c ->
  exists p l, split [c] t = p :: l /\ split [c] (x :: t) = (x :: p) :: l.
Proof.
  intros Hx. unfold split.
  assert (G : forall cur, exists p l,
               split_aux [c] t 0 cur = (rev cur ++ p) :: l
               /\ forall y, split_aux [c] t 0 (cur ++ [y])
                            = (y :: rev cur ++ p) :: l).
  { induction t as [|z t IH]; intros cur.
    - exists [], []. cbn [split_aux]. rewrite app_nil_r. split; [reflexivity|].
      intros y. rewrite rev_app_distr. reflexivity.
    - cbn [split_aux startswith length Nat.sub].
      destruct (N.eqb_spec c z) as [->|_]; cbn [andb].
      + exists [], (split_aux [z] t 0 []). rewrite app_nil_r.
        split; [reflexivity|]. intros y. rewrite rev_app_distr. reflexivity.
      + destruct (IH (z :: cur)) as (p & l & E1 & E2).
        exists (z :: p), l. cbn [rev] in E1, E2. rewrite <- app_assoc in E1.
        split; [exact E1|]. intros y.
        change (z :: cur ++ [y]) with ((z :: cur) ++ [y]).
        rewrite E2, <- app_assoc. reflexivity. }
  destruct (G []) as (p & l & E1 & E2). exists p, l. split; [exact E1|].
  cbn [split_aux startswith length Nat.sub].
  destruct (N.eqb_spec c x) as [->|_]; [congruence|]. cbn [andb].
  exact (E2 x).
Qed.

Lemma split_join (l : list str) :
  Forall field_ok l -> l <> [] ->
  map strip (split (u "|") (join (u " | ") l)) = l.
Proof.
  induction 1 as [|s l (Hne & Hs & Hbar & _) Hl IH]; [congruence|].
  intros _. rewrite join_cons. destruct l as [|s' l'].
  - rewrite app_nil_r, split_absent.
    + cbn [map]. rewrite Hs. reflexivity.
    + destruct (contains (u "|") s) eqn:C; [|reflexivity].
      apply (contains_char 124%N s) in C. contradiction.
  - change (s ++ u " | " ++ ?j) with (s ++ 32%N :: 124%N :: 32%N :: j).
    change (s ++ 32%N :: 124%N :: ?j) with (s ++ [32%N] ++ 124%N :: j).
    rewrite app_assoc.
    change (u "|") with [124%N].
    rewrite split_char_app.
    + destruct (split_char_cons 124%N 32%N (join (u " | ") (s' :: l')))
        as (p & q & E1 & E2); [discriminate|].
      rewrite E2. cbn [map].
      change (u "|") with [124%N] in IH. rewrite E1 in IH. cbn [map] in IH.
      specialize (IH ltac:(discriminate)).
      injection IH as Ep Eq.
      f_equal.
      * rewrite <- Hs at 2. apply (strip_pad [] s [32%N]); reflexivity.
      * f_equal; [|exact Eq].
        rewrite <- Ep.
        transitivity (strip ([32%N] ++ p ++ []));
          [rewrite app_nil_r; reflexivity | apply strip_pad; reflexivity].
    + intros H. apply in_app_or in H as [H|[H|[]]];
        [exact (Hbar H) | discriminate].
Qed.

End LocationRoundTrip.

Section LocationText.

Import Py FormatSchedule Inv Obs.

Lemma field_truthy (f : str) : field_ok f -> truthy f = true.
Proof. intros (H & _). destruct f; [congruence | reflexivity]. Qed.

(** A label in front of a stored value gives a segment of the same kind. *)
Lemma literal_segment (c : N) (q f : str) :
  isspace c = false -> ~ In 124%N (c :: q) -> ~ In 44%N (c :: q) ->
  field_ok f -> field_ok ((c :: q) ++ f).
Proof.
  intros Hc Hbar Hcomma (Hne & Hs & Hb & Hn).
  destruct (trimmed_last f Hne Hs) as (r & z & E & Hz).
  split; [discriminate|]. split; [|split].
  - apply (strip_fixed _ c z (q ++ f) ((c :: q) ++ r));
      [reflexivity | exact Hc | rewrite E, app_assoc; reflexivity | exact Hz].
  - intros H. apply in_app_or in H as [H|H]; [exact (Hbar H) | exact (Hb H)].
  - apply no_city_literal; assumption.
Qed.

Lemma building_segment (b : str) : field_ok b -> field_ok (u "Building " ++ b).
Proof.
  apply (literal_segment 66%N (u "uilding ") b); [reflexivity | |];
    cbn; intuition discriminate.
Qed.

Lemma level_segment (l : str) : field_ok l -> field_ok (u "Level " ++ l).
Proof.
  apply (literal_segment 76%N (u "evel ") l); [reflexivity | |];
    cbn; intuition discriminate.
Qed.

Lemma assign_building_text (loc : Location) (b : str) :
  field_ok b ->
  assign_part loc (u "Building " ++ b)
  = {| building := Some b; level := level loc; room := room loc |}.
Proof.
  intros (_ & Hs & _).
  rewrite (@assign_building loc (u "Building ") b eq_refl), Hs. reflexivity.
Qed.

Lemma assign_level_text (loc : Location) (l : str) :
  field_ok l ->
  assign_part loc (u "Level " ++ l)
  = {| building := building loc; level := Some l; room := room loc |}.
Proof.
  intros (_ & Hs & _).
  rewrite (@assign_level loc (u "Level ") l eq_refl), Hs. reflexivity.
Qed.

Lemma assign_room_text (loc : Location) (r : str) :
  field_ok r /\ room_ok r ->
  assign_part loc r
  = {| building := building loc; level := level loc; room := Some r |}.
Proof.
  intros ((Hne & _) & Hr). apply (@assign_room loc r); [|exact Hne].
  apply room_tests, Hr.
Qed.

Lemma join_truthy (sep : str) (l : list str) (s : str) :
  truthy s = true -> truthy (join sep (s :: l)) = true.
Proof.
  destruct s; [discriminate|]. intros _. cbn [join]. destruct l; reflexivity.
Qed.

(** The parser on segments joined by the separator of [to_text]. *)
Lemma parse_joined (segs : list str) :
  Forall field_ok segs -> segs <> [] ->
  parse_location (join (u " | ") segs)
  = let loc := fold_left assign_part segs no_location in
    if opt_truthy (building loc) || opt_truthy (level loc)
       || opt_truthy (room loc)
    then Some loc else None.
Proof.
  intros H Hne. unfold parse_location.
  rewrite (before_city_none _ (no_city_join segs H)).
  rewrite (join_trimmed segs H Hne), (split_join segs H Hne).
  destruct segs as [|s segs]; [congruence|].
  assert (Hs : field_ok s) by (inversion H; assumption).
  rewrite (join_truthy (u " | ") segs s (field_truthy s Hs)). reflexivity.
Qed.

(** X22: the text [Location.to_text] gives for a parsed location is parsed
    back to the same location. *)
Theorem location_text_round_trip (location : str) (loc : Location) :
  parse_location location = Some loc ->
  parse_location (location_to_text loc) = Some loc.
Proof.
  intros H. apply parse_location_ok in H as [(Hb & Hl & Hr) Ht].
  destruct loc as [[b|] [l|] [r|]];
    cbn [building level room opt_holds] in Hb, Hl, Hr, Ht;
    unfold location_to_text; cbn [building level room];
    rewrite ?(field_truthy _ Hb), ?(field_truthy _ Hl),
      ?(field_truthy _ (proj1 Hr));
    cbn [app];
    try discriminate Ht;
    (rewrite parse_joined;
     [| repeat (apply Forall_cons;
                [first [ apply building_segment, Hb | apply level_segment, Hl
                       | apply Hr ]|]);
        apply Forall_nil
      | discriminate ]);
    cbn [fold_left];
    rewrite ?(assign_building_text _ _ Hb), ?(assign_level_text _ _ Hl),
      ?(assign_room_text _ _ Hr);
    cbn [building level room opt_truthy no_location];
    rewrite ?(field_truthy _ Hb), ?(field_truthy _ Hl),
      ?(field_truthy _ (proj1 Hr));
    reflexivity.
Qed.

End LocationText.

Section LocationTextInstance.

Import Py FormatSchedule.

Lemma location_text_round_trip_witness :
  parse_location (u "Building B | Level 4 | B406, Atlanta GA")
  = Some {| building := Some (u "B"); level := Some (u "4");
            room := Some (u "B406") |}
  /\ parse_location
       (location_to_text {| building := Some (u "B"); level := Some (u "4");
                            room := Some (u "B406") |})
     = Some {| building := Some (u "B"); level := Some (u "4");
               room := Some (u "B406") |}.
Proof.
  split; [vm_compute; reflexivity|].
  apply (location_text_round_trip (u "Building B | Level 4 | B406, Atlanta GA")).
  vm_compute. reflexivity.
Defined.

End LocationTextInstance.

Section LocationInvariant.

Import Py FormatSchedule Inv Obs.

(** X23: every field of a parsed location is a non-empty, trimmed string
    without the segment separator [|], and the room is a segment that starts
    with neither label. *)
Theorem parsed_location_fields (location : str) (loc : Location) :
  parse_location location = Some loc ->
  (forall f, building loc = Some f \/ level loc = Some f \/ room loc = Some f ->
             f <> [] /\ strip f = f /\ ~ In 124%N f)
  /\ (forall r, room loc = Some r ->
                startswith (u "building ") (lower r) = false
                /\ startswith (u "level ") (lower r) = false).
Proof.
  intros H. apply parse_location_ok in H as [(Hb & Hl & Hr) _].
  split.
  - intros f [E|[E|E]]; rewrite E in *; cbn [opt_holds] in *.
    + destruct Hb as (H1 & H2 & H3 & _). auto.
    + destruct Hl as (H1 & H2 & H3 & _). auto.
    + destruct Hr as ((H1 & H2 & H3 & _) & _). auto.
  - intros r E. rewrite E in Hr. exact (proj2 Hr).
Qed.

End LocationInvariant.

Section LocationInvariantInstance.

Import Py FormatSchedule.

Lemma parsed_location_fields_witness :
  parse_location (u " Building  B |Level 4|| Hall | B406 , Atlanta")
  = Some {| building := Some (u "B"); level := Some (u "4");
            room := Some (u "B406") |}
  /\ ((forall f, Some (u "B") = Some f \/ Some (u "4") = Some f
                 \/ Some (u "B406") = Some f ->
                 f <> [] /\ strip f = f /\ ~ In 124%N f)
      /\ (forall r, Some (u "B406") = Some r ->
                    startswith (u "building ") (lower r) = false
                    /\ startswith (u "level ") (lower r) = false)).
Proof.
  split; [vm_compute; reflexivity|].
  apply (parsed_location_fields
           (u " Building  B |Level 4|| Hall | B406 , Atlanta")
           {| building := Some (u "B"); level := Some (u "4");
              room := Some (u "B406") |}).
  vm_compute. reflexivity.
Defined.

End LocationInvariantInstance.
